(** * A verified model of the CommonJS module shim (CommonJS.js)

    The development embeds the module registry of the repository
    (name detection from a stack trace, [__defineModule__], [require],
    [__getCurrentModule__]) and proves the properties its specification
    states about it.

    Conventions of the embedding:
    - JavaScript strings are strings of ASCII characters ([string]): the
      [\s] class of the regular expressions and [trim] know the ASCII
      white space, and input with other characters is outside the model.
    - The objects [modules] and [moduleFactories] are plain objects: the
      finite map of their own properties, the order in which these were
      created (for [Object.keys]), and the members they inherit from
      [Object.prototype], which a property read also answers with.
      [loadingModules] is a finite set.
    - Objects live in a heap (a list indexed by location), so that
      "the same object" is equality of locations.
    - A factory is a tree of the actions it can perform on the registry
      and the heap; [require] recurses through the factories it calls,
      with a bound on the nesting depth of the calls. *)

From Stdlib Require Import Ascii.
From Stdlib Require String.
From stdpp Require Import gmap strings list fin_maps.

(** ** Strings *)

Module Str.

Definition chars (s : string) : list ascii := String.list_ascii_of_string s.
Definition of_chars (l : list ascii) : string := String.string_of_list_ascii l.

(** [\s] and [\d] *)
Definition is_space (a : ascii) : bool :=
  let n := nat_of_ascii a in
  (n =? 32) || ((9 <=? n) && (n <=? 13)).

Definition is_digit (a : ascii) : bool :=
  let n := nat_of_ascii a in
  (48 <=? n) && (n <=? 57).

(** [s.startsWith(p)] *)
Definition startsWith (s p : string) : bool := String.prefix p s.

(** [s.endsWith(p)] *)
Definition endsWith (s p : string) : bool :=
  let n := String.length s in
  let k := String.length p in
  (k <=? n) && String.eqb (String.substring (n - k) k s) p.

(** [s.slice(0, -k)] *)
Definition drop_last (k : nat) (s : string) : string :=
  String.substring 0 (String.length s - k) s.

(** [s.includes(p)] *)
Fixpoint includes (s p : string) : bool :=
  String.prefix p s ||
  match s with
  | EmptyString => false
  | String _ s' => includes s' p
  end.

(** [s.split(c)] for a one-character separator: never the empty array. *)
Fixpoint split_go (c : ascii) (cur : list ascii) (s : list ascii) : list string :=
  match s with
  | [] => [of_chars (rev cur)]
  | a :: s' =>
      if Ascii.eqb a c then of_chars (rev cur) :: split_go c [] s'
      else split_go c (a :: cur) s'
  end.

Definition split (c : ascii) (s : string) : list string := split_go c [] (chars s).

(** [l.pop()] of a freshly built array: its last element. *)
Definition pop (l : list string) : string := List.last l "".

Fixpoint drop_spaces (l : list ascii) : list ascii :=
  match l with
  | a :: l' => if is_space a then drop_spaces l' else l
  | [] => []
  end.

(** [s.trim()] *)
Definition trim (s : string) : string :=
  of_chars (rev (drop_spaces (rev (drop_spaces (chars s))))).

(** [l.join(sep)] *)
Definition join (sep : string) (l : list string) : string := String.concat sep l.

(** [p] occurs in [s]. *)
Definition occurs_in (p s : string) : Prop := ∃ a b, s = a +:+ p +:+ b.

End Str.

(** ** Regular expressions

    A backtracking matcher with the priorities of the JavaScript one:
    greedy quantifiers, leftmost start, captures undone on backtracking. *)

Module Regex.

Inductive re : Type :=
| Eps
| Class (p : ascii → bool)
| Cat (r1 r2 : re)
| Opt (r : re)
| Star (r : re)
| Group (i : nat) (r : re)
| Bol
| Eol.

Definition Plus (r : re) : re := Cat r (Star r).
Definition Chr (c : ascii) : re := Class (Ascii.eqb c).
Definition NoneOf (cs : list ascii) (space : bool) : re :=
  Class (λ a, negb (existsb (Ascii.eqb a) cs) && negb (space && Str.is_space a)).
Definition Space : re := Class Str.is_space.
Definition Digit : re := Class Str.is_digit.
Fixpoint Lit (l : list ascii) : re :=
  match l with
  | [] => Eps
  | c :: l' => Cat (Chr c) (Lit l')
  end.

(** The captures: group number to captured text. *)
Definition caps := list (nat * list ascii).

Fixpoint cap (c : caps) (i : nat) : option (list ascii) :=
  match c with
  | [] => None
  | (j, t) :: c' => if j =? i then Some t else cap c' i
  end.

(** [m r i s c k]: match [r] at offset [i], where [s] is the rest of the
    input, then continue with [k]. *)
Fixpoint m (r : re) (i : nat) (s : list ascii) (c : caps)
    (k : nat → list ascii → caps → option (nat * caps)) : option (nat * caps) :=
  match r with
  | Eps => k i s c
  | Class p =>
      match s with
      | a :: s' => if p a then k (S i) s' c else None
      | [] => None
      end
  | Cat r1 r2 => m r1 i s c (λ i' s' c', m r2 i' s' c' k)
  | Opt r1 =>
      match m r1 i s c k with
      | Some x => Some x
      | None => k i s c
      end
  | Star r1 =>
      (fix loop (n : nat) (i : nat) (s : list ascii) (c : caps) :=
         match n with
         | 0 => k i s c
         | S n' =>
             match m r1 i s c (λ i' s' c', if i <? i' then loop n' i' s' c' else None) with
             | Some x => Some x
             | None => k i s c
             end
         end) (length s) i s c
  | Group j r1 => m r1 i s c (λ i' s' c', k i' s' ((j, take (i' - i) s) :: c'))
  | Bol => if i =? 0 then k i s c else None
  | Eol => match s with [] => k i s c | _ => None end
  end.

(** Leftmost match: the start offset, the end offset and the captures. *)
Fixpoint search_from (r : re) (i : nat) (s : list ascii) : option (nat * nat * caps) :=
  match m r i s [] (λ i' _ c', Some (i', c')) with
  | Some (e, c) => Some (i, e, c)
  | None =>
      match s with
      | [] => None
      | _ :: s' => search_from r (S i) s'
      end
  end.

(** [s.match(r)]: the captures of the leftmost match. *)
Definition exec (r : re) (s : string) : option caps :=
  match search_from r 0 (Str.chars s) with
  | Some (_, _, c) => Some c
  | None => None
  end.

(** [match[i]], [None] for a group that took no part in the match. *)
Definition group (c : caps) (i : nat) : option string :=
  Str.of_chars <$> cap c i.

(** [s.replace(r, '')] for a regular expression without the [g] flag. *)
Definition remove (r : re) (s : string) : string :=
  let l := Str.chars s in
  match search_from r 0 l with
  | Some (b, e, _) => Str.of_chars (take b l ++ drop e l)
  | None => s
  end.

End Regex.

(** ** The stack-trace patterns of the shim *)

Module Patterns.
Import Regex.

Fixpoint seq (l : list re) : re :=
  match l with
  | [] => Eps
  | [r] => r
  | r :: l' => Cat r (seq l')
  end.

Definition slash : ascii := "/"%char.
Definition colon : ascii := ":"%char.
Definition lpar : ascii := "("%char.
Definition rpar : ascii := ")"%char.
Definition dot : ascii := "."%char.

(** [at\s+] *)
Definition at_ : re := seq [Lit (Str.chars "at"); Plus Space].
(** [:\d+:\d+] *)
Definition line_col : re := seq [Chr colon; Plus Digit; Chr colon; Plus Digit].
(** [[^/\s:]] *)
Definition seg : re := NoneOf [slash; colon] true.
(** [[^/:()]] and [[^/\s:()]] *)
Definition file_chr : re := NoneOf [slash; colon; lpar; rpar] false.
Definition file_chr_ns : re := NoneOf [slash; colon; lpar; rpar] true.

(** [/at\s+([^/\s:]+\/)?([^/\s:]+(?:\/[^/\s:]+){0,}):\d+:\d+/]
    (the source writes the last quantifier as a star) *)
Definition virtual_path : re :=
  seq [at_; Opt (Group 1 (seq [Plus seg; Chr slash]));
       Group 2 (seq [Plus seg; Star (seq [Chr slash; Plus seg])]); line_col].

(** [/at\s+([^/\s:]+(?:\/[^/\s:]+)+):\d+:\d+/] *)
Definition full_path : re :=
  seq [at_; Group 1 (seq [Plus seg; Plus (seq [Chr slash; Plus seg])]); line_col].

(** [/\(([^/:()]+):\d+:\d+\)/] *)
Definition paren_file : re :=
  seq [Chr lpar; Group 1 (Plus file_chr); line_col; Chr rpar].

(** [/at\s+[^(]*\(([^/:()]+):\d+:\d+\)/] *)
Definition at_fn_paren_file : re :=
  seq [at_; Star (NoneOf [lpar] false); Chr lpar; Group 1 (Plus file_chr); line_col; Chr rpar].

(** [/([^/\s]+)\.gs:\d+/] *)
Definition gs_file : re :=
  seq [Group 1 (Plus (NoneOf [slash] true)); Lit (Str.chars ".gs:"); Plus Digit].

(** [/at\s+([^.\s]+)\./] *)
Definition at_file_dot : re :=
  seq [at_; Group 1 (Plus (NoneOf [dot] true)); Chr dot].

(** [/at\s+([^/\s:]+):\d+:\d+/] *)
Definition at_file : re := seq [at_; Group 1 (Plus seg); line_col].

(** [/^\s*([^/\s:()]+):\d+:\d+/] *)
Definition bare_file : re := seq [Bol; Star Space; Group 1 (Plus file_chr_ns); line_col].

(** [/at\s+([^/\s:()]+):\d+:\d+/] *)
Definition at_simple_file : re := seq [at_; Group 1 (Plus file_chr_ns); line_col].

(** [/\/$/] *)
Definition trailing_slash : re := seq [Chr slash; Eol].

(** [/^\.\/?/] and [/^\.\.\/?/] *)
Definition lead_dot : re := seq [Bol; Chr dot; Opt (Chr slash)].
Definition lead_dotdot : re := seq [Bol; Chr dot; Chr dot; Opt (Chr slash)].

End Patterns.

(** ** Name extraction shared by the two stack walkers *)

(** The test guarding every [return] of a detected name:
    [name && name !== 'eval' && name !== 'anonymous' &&
     !name.startsWith('__') && name !== 'CommonJS'] *)
Definition usable (name : string) : bool :=
  negb (String.eqb name "") && negb (String.eqb name "eval") &&
  negb (String.eqb name "anonymous") && negb (Str.startsWith name "__") &&
  negb (String.eqb name "CommonJS").

(** The name built from a match of the virtual-path pattern:
    [pathPrefix ? `${pathPrefix}/${filePart}` : filePart]. *)
Definition virtual_path_name (c : Regex.caps) : string :=
  let pathPrefix :=
    match Regex.group c 1 with
    | Some g => if String.eqb g "" then "" else Regex.remove Patterns.trailing_slash g
    | None => ""
    end in
  let filePart := default "" (Regex.group c 2) in
  if String.eqb pathPrefix "" then filePart else pathPrefix +:+ "/" +:+ filePart.

(** One pattern tried on one line: the name it yields, if usable. *)
Definition try_virtual_path (line : string) : option string :=
  match Regex.exec Patterns.virtual_path line with
  | Some c => let fullPath := virtual_path_name c in
              if usable fullPath then Some fullPath else None
  | None => None
  end.

Definition try_group1 (r : Regex.re) (line : string) : option string :=
  match Regex.exec r line with
  | Some c => let name := default "" (Regex.group c 1) in
              if usable name then Some name else None
  | None => None
  end.

(** The first pattern of the list that yields a usable name. *)
Fixpoint first_of (ps : list (string → option string)) (line : string) : option string :=
  match ps with
  | [] => None
  | p :: ps' =>
      match p line with
      | Some name => Some name
      | None => first_of ps' line
      end
  end.

(** The patterns of [__detectModuleName__], in the order it tries them. *)
Definition detect_patterns : list (string → option string) :=
  [ try_virtual_path;
    try_group1 Patterns.full_path;
    try_group1 Patterns.paren_file;
    try_group1 Patterns.at_fn_paren_file;
    try_group1 Patterns.gs_file;
    try_group1 Patterns.at_file_dot;
    try_group1 Patterns.at_file;
    try_group1 Patterns.bare_file ].

(** The frames [__detectModuleName__] skips, on the trimmed line:
    [!line || line.includes('__detectModuleName__') ||
     line.includes('__defineModule__')]. *)
Definition skipped (line : string) : bool :=
  String.eqb line "" ||
  Str.includes line "__detectModuleName__" ||
  Str.includes line "__defineModule__".

(** The loop of [__detectModuleName__] over the lines of the stack. *)
Fixpoint detect_lines (lines : list string) : option string :=
  match lines with
  | [] => None
  | l :: lines' =>
      let line := Str.trim l in
      if skipped line then detect_lines lines'
      else match first_of detect_patterns line with
           | Some name => Some name
           | None => detect_lines lines'
           end
  end.

Definition newline : ascii := "010"%char.

Definition stack_lines (stack : string) : list string := Str.split newline stack.

(** ** Values, objects and the heap *)

Abbreviation loc := nat (only parsing).

(** The [debugInfo] object of a failed detection. *)
Record debug_info := DebugInfo {
  stackTrace : string;
  lines : list string;
  processedLines : list (nat * string * bool);
}.

(** [new Error(message)]; [ErrorWith message info] is the error whose
    message is [message + JSON.stringify(info, null, 2)], kept unserialised. *)
Inductive error : Type :=
| Error (message : string)
| ErrorWith (message : string) (info : debug_info)
| ReferenceError (message : string).

Inductive value : Type :=
| VUndef
| VBool (b : bool)
| VNum (n : Z)
| VStr (s : string)
| VRef (l : loc)
| VFun (name : string)           (* a function, by its name *)
| VHost (name : string)          (* an object of the host, by its name *)
| VError (e : error).

Abbreviation obj := (gmap string value) (only parsing).

(** [o.key], [undefined] for a missing property. *)
Definition get_prop (h : list obj) (o : loc) (key : string) : value :=
  match h !! o with
  | Some props => default VUndef (props !! key)
  | None => VUndef
  end.

(** [o.key = v] *)
Definition set_prop (h : list obj) (o : loc) (key : string) (v : value) : list obj :=
  match h !! o with
  | Some props => <[o := <[key := v]> props]> h
  | None => h
  end.

(** ** Plain objects

    [modules] and [moduleFactories] are created as [{}]: a property read
    [o[k]] answers with the own property [k] if there is one, else with
    the member [k] of [Object.prototype], else with [undefined]. The
    members are functions, but for the accessor [__proto__], which gives
    the prototype itself; all of them are truthy and none has a property
    [exports]. *)

Definition object_prototype : list (string * value) :=
  [ ("constructor", VFun "Object");
    ("__defineGetter__", VFun "Object.prototype.__defineGetter__");
    ("__defineSetter__", VFun "Object.prototype.__defineSetter__");
    ("hasOwnProperty", VFun "Object.prototype.hasOwnProperty");
    ("__lookupGetter__", VFun "Object.prototype.__lookupGetter__");
    ("__lookupSetter__", VFun "Object.prototype.__lookupSetter__");
    ("isPrototypeOf", VFun "Object.prototype.isPrototypeOf");
    ("propertyIsEnumerable", VFun "Object.prototype.propertyIsEnumerable");
    ("toString", VFun "Object.prototype.toString");
    ("valueOf", VFun "Object.prototype.valueOf");
    ("__proto__", VHost "Object.prototype");
    ("toLocaleString", VFun "Object.prototype.toLocaleString") ].

Fixpoint assoc (k : string) (l : list (string * value)) : option value :=
  match l with
  | [] => None
  | (k', v) :: l' => if String.eqb k' k then Some v else assoc k l'
  end.

(** What a plain object without own property [k] answers to [o[k]]. *)
Definition inherited (k : string) : option value := assoc k object_prototype.

(** The creation order of the own properties after [o[k] = v]. *)
Definition add_key (k : string) (keys : list string) : list string :=
  if decide (k ∈ keys) then keys else keys ++ [k].

(** An array index: the canonical numeral of an integer below [2^32 - 1]. *)
Definition digit_value (a : ascii) : N := N.of_nat (nat_of_ascii a - 48).

Definition decimal (l : list ascii) : N :=
  foldl (λ n a, 10 * n + digit_value a)%N 0%N l.

Definition array_index (k : string) : option N :=
  match Str.chars k with
  | [] => None
  | a :: l =>
      if forallb Str.is_digit (a :: l)
         && (negb (Ascii.eqb a "0") || bool_decide (l = []))
         && (decimal (a :: l) <? 4294967295)%N
      then Some (decimal (a :: l))
      else None
  end.

Fixpoint insert_index (p : N * string) (l : list (N * string)) : list (N * string) :=
  match l with
  | [] => [p]
  | q :: l' => if (p.1 <=? q.1)%N then p :: l else q :: insert_index p l'
  end.

(** [Object.keys(o)], from the creation order of the own properties of
    [o]: the array indices in ascending order, then the other keys in
    creation order. *)
Definition object_keys (order : list string) : list string :=
  (foldr insert_index [] (omap (λ k, (λ n, (n, k)) <$> array_index k) order)).*2
  ++ filter (λ k, array_index k = None) order.

(** ** Factories

    What the body of a [_main] function can do: return (or fall off the
    end, [Return VUndef]), throw, build an object, write and read
    properties of objects it holds, and call the [require] it was given,
    inside a [try] (the continuation receives the value returned, [inl],
    or the exception caught, [inr]; an uncaught exception is rethrown by
    the continuation). These are the three capabilities a factory is
    handed (module record, exports, resolver): a factory does not register
    units and does not reach the registry's maps by other means. *)

Inductive fac : Type :=
| Return (v : value)
| Throw (e : value)
| New (k : loc → fac)
| SetProp (o : loc) (key : string) (v : value) (k : fac)
| GetProp (o : loc) (key : string) (k : value → fac)
| CallRequire (name : string) (k : value + value → fac).

(** A factory receives its module record and the record's pre-seeded
    [exports] object (and [require], which is [CallRequire]). *)
Definition factory := loc → loc → fac.

(** ** The registry *)

Inductive log_line : Type :=
| LogDetecting
| LogDetected (name : string)
| LogDetectFailed
| LogRegistered (name : string)
| LogLoading (name : string)
| LogLoaded (name : string).

Record registry := Registry {
  heap : list obj;
  modules : gmap string loc;
  moduleFactories : gmap string factory;
  loadingModules : gset string;
  currentModule : value;          (* globalThis.__currentModule *)
  logger : list log_line;         (* Logger.log *)
  console : list string;          (* console.warn *)
  moduleKeys : list string;       (* own properties of modules, as created *)
  factoryKeys : list string;      (* the same for moduleFactories *)
}.

Definition empty_registry : registry :=
  Registry [] ∅ ∅ ∅ VUndef [] [] [] [].

Definition with_heap (h : list obj) (st : registry) : registry :=
  Registry h (modules st) (moduleFactories st) (loadingModules st)
           (currentModule st) (logger st) (console st)
           (moduleKeys st) (factoryKeys st).
(** [modules[k] = module] *)
Definition set_module (k : string) (module : loc) (st : registry) : registry :=
  Registry (heap st) (<[k := module]> (modules st)) (moduleFactories st)
           (loadingModules st) (currentModule st) (logger st) (console st)
           (add_key k (moduleKeys st)) (factoryKeys st).
(** [moduleFactories[k] = f] *)
Definition set_factory (k : string) (f : factory) (st : registry) : registry :=
  Registry (heap st) (modules st) (<[k := f]> (moduleFactories st))
           (loadingModules st) (currentModule st) (logger st) (console st)
           (moduleKeys st) (add_key k (factoryKeys st)).
Definition with_loading (ls : gset string) (st : registry) : registry :=
  Registry (heap st) (modules st) (moduleFactories st) ls
           (currentModule st) (logger st) (console st)
           (moduleKeys st) (factoryKeys st).
Definition with_current (v : value) (st : registry) : registry :=
  Registry (heap st) (modules st) (moduleFactories st) (loadingModules st)
           v (logger st) (console st) (moduleKeys st) (factoryKeys st).
Definition log (l : log_line) (st : registry) : registry :=
  Registry (heap st) (modules st) (moduleFactories st) (loadingModules st)
           (currentModule st) (logger st ++ [l]) (console st)
           (moduleKeys st) (factoryKeys st).
Definition warn (w : string) (st : registry) : registry :=
  Registry (heap st) (modules st) (moduleFactories st) (loadingModules st)
           (currentModule st) (logger st) (console st ++ [w])
           (moduleKeys st) (factoryKeys st).

(** A new object: its location and the registry with it in the heap. *)
Definition alloc (o : obj) (st : registry) : loc * registry :=
  (length (heap st), with_heap (heap st ++ [o]) st).

Inductive outcome : Type :=
| Returns (v : value)
| Throws (e : value)
| OutOfFuel.

(** ** [__detectModuleName__] *)

Definition detect_debug_info (stack : string) : debug_info :=
  let ls := stack_lines stack in
  DebugInfo stack ls
    (imap (λ i line,
       (i, Str.trim line,
        String.eqb (Str.trim line) "" ||
        Str.includes line "__detectModuleName__" ||
        Str.includes line "__defineModule__")) ls).

Definition detect_failure (stack : string) : value :=
  VError (ErrorWith "Unable to detect module name from stack trace. Debug info: "
                    (detect_debug_info stack)).

(** [stack] is the [e.stack] of the error the function throws to itself. *)
Definition __detectModuleName__ (stack : string) (st : registry)
    : (string + value) * registry :=
  let st := log LogDetecting st in
  match detect_lines (stack_lines stack) with
  | Some name => (inl name, log (LogDetected name) st)
  | None => (inr (detect_failure stack), log LogDetectFailed st)
  end.

(** ** [__defineModule__] *)

Definition duplicate_warning (moduleName : string) : string :=
  "Module " +:+ moduleName +:+ " already registered, skipping duplicate registration".

(** The body of [__defineModule__] once [moduleName] is known. The test
    [if (moduleFactories[moduleName])] is a property read of a plain
    object: an own factory and an inherited member both make it true. *)
Definition register (moduleFactory : factory) (moduleName : string) (st : registry)
    : outcome * registry :=
  match moduleFactories st !! moduleName, inherited moduleName with
  | None, None =>
      (Returns VUndef,
       log (LogRegistered moduleName) (set_factory moduleName moduleFactory st))
  | _, _ => (Returns VUndef, warn (duplicate_warning moduleName) st)
  end.

(** [explicitName || __detectModuleName__()]: an absent or empty explicit
    name falls to the detection. *)
Definition __defineModule__ (moduleFactory : factory) (explicitName : option string)
    (stack : string) (st : registry) : outcome * registry :=
  match explicitName with
  | Some (String a s) => register moduleFactory (String a s) st
  | _ =>
      match __detectModuleName__ stack st with
      | (inl moduleName, st') => register moduleFactory moduleName st'
      | (inr e, st') => (Throws e, st')
      end
  end.

(** ** [require] *)

(** The inner function [normalize] of [require]. *)
Definition normalize (name : string) : string :=
  let name := Regex.remove Patterns.lead_dot name in
  let name := Regex.remove Patterns.lead_dotdot name in
  if Str.endsWith name ".js" then Str.drop_last 3 name else name.

(** The array [candidates] that [require] builds, in order. *)
Definition candidates (moduleName : string) : list string :=
  let norm := normalize moduleName in
  let base := Str.pop (Str.split Patterns.slash norm) in
  [moduleName]
  ++ (if String.eqb norm moduleName then [] else [norm])
  ++ (if Str.endsWith norm ".js" then [] else [norm +:+ ".js"])
  ++ (if negb (String.eqb base "") && negb (String.eqb base norm)
      then base :: (if Str.endsWith base ".js" then [] else [base +:+ ".js"])
      else []).

(** The result of the loop over the candidates: the loop returns the
    exports of a module record it meets, or stops at the first candidate
    with a factory, or runs to its end. Both tests are property reads of
    plain objects. For a candidate that is a member of [Object.prototype]
    and has no record, [modules[candidate]] is that member and the loop
    returns its [exports], which is [undefined]; so the second test is
    only reached for other names, where it reads an own property. *)
Inductive scan_result : Type :=
| CacheHit (exports : value)
| Selected (found : string) (moduleFactory : factory)
| NoMatch.

Fixpoint scan (st : registry) (cands : list string) : scan_result :=
  match cands with
  | [] => NoMatch
  | candidate :: cands' =>
      match modules st !! candidate with
      | Some module => CacheHit (get_prop (heap st) module "exports")
      | None =>
          match inherited candidate with
          | Some _ => CacheHit VUndef
          | None =>
              match moduleFactories st !! candidate with
              | Some f => Selected candidate f
              | None => scan st cands'
              end
          end
      end
  end.

(** [Object.keys(moduleFactories)] *)
Definition registered (st : registry) : list string :=
  object_keys (factoryKeys st).

Definition not_found_message (moduleName : string) (cands keys : list string) : string :=
  "Module not found: " +:+ moduleName +:+ ". Tried: " +:+ Str.join ", " cands
  +:+ ". Available modules: " +:+ Str.join ", " keys.

Definition module_not_found (moduleName : string) (st : registry) : value :=
  VError (Error (not_found_message moduleName (candidates moduleName) (registered st))).

Definition circular_dependency (found : string) : value :=
  VError (Error ("Circular dependency detected: " +:+ found)).

(** The run of a factory body; [req] is the [require] it calls. *)
Section Run.
Variable req : string → registry → outcome * registry.

Fixpoint run (p : fac) (st : registry) : outcome * registry :=
  match p with
  | Return v => (Returns v, st)
  | Throw e => (Throws e, st)
  | New k => let '(o, st') := alloc ∅ st in run (k o) st'
  | SetProp o key v k => run k (with_heap (set_prop (heap st) o key v) st)
  | GetProp o key k => run (k (get_prop (heap st) o key)) st
  | CallRequire name k =>
      match req name st with
      | (Returns v, st') => run (k (inl v)) st'
      | (Throws e, st') => run (k (inr e)) st'
      | (OutOfFuel, st') => (OutOfFuel, st')
      end
  end.
End Run.

(** The registry at the moment the factory of [found] is called:
    [found] is in the loading set, a module record with an empty
    [exports] is registered under it and is the current module. *)
Definition begin_load (found : string) (st : registry) : loc * loc * registry :=
  let st := with_loading ({[found]} ∪ loadingModules st) st in
  let '(exports, st) := alloc ∅ st in
  let '(module, st) := alloc {["exports" := VRef exports]} st in
  let st := set_module found module st in
  let st := with_current (VRef module) st in
  (module, exports, log (LogLoading found) st).

(** The [finally] block. *)
Definition end_load (found : string) (st : registry) : registry :=
  with_loading (loadingModules st ∖ {[found]}) st.

(** The [try]/[finally] statement of [require]: the module record is
    created and registered, the factory called, its result (if any)
    stored as the record's exports; the [finally] block runs on return and
    on throw. [req] is the [require] handed to the factory. *)
Definition load (req : string → registry → outcome * registry)
    (found : string) (moduleFactory : factory) (st : registry) : outcome * registry :=
  let previousModule := currentModule st in
  let '(module, exports, st1) := begin_load found st in
  match run req (moduleFactory module exports) st1 with
  | (Returns result, st2) =>
      let st3 :=
        match result with
        | VUndef => st2
        | _ => with_heap (set_prop (heap st2) module "exports" result) st2
        end in
      let st4 := log (LogLoaded found) (with_current previousModule st3) in
      (Returns (get_prop (heap st4) module "exports"), end_load found st4)
  | (Throws e, st2) => (Throws e, end_load found st2)
  | (OutOfFuel, st2) => (OutOfFuel, st2)
  end.

(** The body of [require]. The factory called is the one the scan read:
    nothing writes [moduleFactories] in between. [if (!found)] also
    rejects the empty name. *)
Definition require_body (req : string → registry → outcome * registry)
    (moduleName : string) (st : registry) : outcome * registry :=
  match scan st (candidates moduleName) with
  | CacheHit exports => (Returns exports, st)
  | NoMatch => (Throws (module_not_found moduleName st), st)
  | Selected "" _ => (Throws (module_not_found moduleName st), st)
  | Selected found moduleFactory =>
      if decide (found ∈ loadingModules st)
      then (Throws (circular_dependency found), st)
      else load req found moduleFactory st
  end.

(** [require], with [fuel] bounding the depth of the nested calls. *)
Fixpoint require (fuel : nat) (moduleName : string) (st : registry)
    : outcome * registry :=
  match fuel with
  | 0 => (OutOfFuel, st)
  | S fuel' => require_body (require fuel') moduleName st
  end.

(** ** [__getCurrentModule__] *)

(** The patterns of [__getCurrentModule__], in the order it tries them. *)
Definition current_patterns : list (string → option string) :=
  [ try_group1 Patterns.full_path;
    try_virtual_path;
    try_group1 Patterns.at_simple_file ].

(** Its loop over the (untrimmed, unfiltered) lines of the stack. *)
Fixpoint current_lines (lines : list string) : option string :=
  match lines with
  | [] => None
  | line :: lines' =>
      match first_of current_patterns line with
      | Some name => Some name
      | None => current_lines lines'
      end
  end.

(** The evaluation of an identifier that no file of the repository
    declares: [__getCurrentModule__] calls [__createModule__], which is
    defined nowhere, so the call throws before anything is created. The
    calls stand in a [catch] block and after it: nothing catches the
    error. *)
Definition not_defined (identifier : string) : value :=
  VError (ReferenceError (identifier +:+ " is not defined")).

(** [modules[fullPath] || __createModule__(fullPath)] is a property read of
    a plain object: a record, else an inherited member, answers it. *)
Definition __getCurrentModule__ (stack : string) (st : registry) : outcome * registry :=
  match current_lines (stack_lines stack) with
  | Some name =>
      match modules st !! name with
      | Some module => (Returns (VRef module), st)
      | None =>
          match inherited name with
          | Some member => (Returns member, st)
          | None => (Throws (not_defined "__createModule__"), st)
          end
      end
  | None => (Throws (not_defined "__createModule__"), st)
  end.

(** ** Processes: the calls a host makes on the registry, in order *)

Inductive call : Type :=
| Define (moduleFactory : factory) (explicitName : option string) (stack : string)
| Need (fuel : nat) (moduleName : string)
| Current (stack : string).

Definition do_call (c : call) (st : registry) : outcome * registry :=
  match c with
  | Define f explicitName stack => __defineModule__ f explicitName stack st
  | Need fuel moduleName => require fuel moduleName st
  | Current stack => __getCurrentModule__ stack st
  end.

(** The registry after a sequence of calls, whatever their outcomes. *)
Definition process (cs : list call) (st : registry) : registry :=
  foldl (λ st c, (do_call c st).2) st cs.

(** [n] calls of [require] for the same name, one after the other. *)
Fixpoint require_times (n fuel : nat) (moduleName : string) (st : registry)
    : list outcome * registry :=
  match n with
  | 0 => ([], st)
  | S n' =>
      let '(o, st') := require fuel moduleName st in
      let '(os, st'') := require_times n' fuel moduleName st' in
      (o :: os, st'')
  end.

(** The number of times the factory registered under [k] was called:
    [require] logs [LogLoading k] just before each call. *)
Global Instance log_line_eq_dec : EqDecision log_line.
Proof. solve_decision. Defined.

Definition loads (k : string) (l : list log_line) : nat :=
  length (filter (λ x, x = LogLoading k) l).

(** ** Vocabulary of the properties *)

(** [k] gets its module record between [st] and [st']. *)
Definition fresh_load (st st' : registry) (k : string) : nat :=
  match modules st !! k, modules st' !! k with
  | None, Some _ => 1
  | _, _ => 0
  end.

(** What a call of [require] (and a factory body) does to the registry,
    whatever its outcome: the factories are untouched, module records are
    only added, and only under names that have a factory, the heap only
    grows, nothing is written to the console, and the factory of a name is
    called exactly when the name gets its module record. *)
Record ext (st st' : registry) : Prop := Ext {
  ext_factories : moduleFactories st' = moduleFactories st;
  ext_modules : modules st ⊆ modules st';
  ext_new : ∀ k, modules st !! k = None → is_Some (modules st' !! k) →
                 is_Some (moduleFactories st !! k);
  ext_heap : length (heap st) ≤ length (heap st');
  ext_console : console st' = console st;
  ext_loads : ∀ k, loads k (logger st') = loads k (logger st) + fresh_load st st' k;
}.

(** What any call of the public surface does: module records are only
    added and a factory call is logged only for a name that gets its
    record. *)
Record grows (st st' : registry) : Prop := Grows {
  grows_modules : ∀ k, is_Some (modules st !! k) → is_Some (modules st' !! k);
  grows_loads_ge : ∀ k, loads k (logger st) ≤ loads k (logger st');
  grows_loads_le : ∀ k, loads k (logger st') ≤ loads k (logger st) + fresh_load st st' k;
}.

(** No factory was called for a name without a module record, and none
    was called twice. *)
Definition loads_consistent (st : registry) : Prop :=
  ∀ k, loads k (logger st) ≤ 1 ∧ (modules st !! k = None → loads k (logger st) = 0).

(** The number of registered units without a module record. *)
Definition pending (st : registry) : nat :=
  size (dom (moduleFactories st) ∖ dom (modules st)).

(** The registry without its two output channels. *)
Definition silent (st : registry) : registry :=
  Registry (heap st) (modules st) (moduleFactories st) (loadingModules st)
           (currentModule st) [] [] (moduleKeys st) (factoryKeys st).

(** The name [__defineModule__] registers under, when it finds one. *)
Definition resolved_name (explicitName : option string) (stack : string) : option string :=
  match explicitName with
  | Some (String a s) => Some (String a s)
  | _ => detect_lines (stack_lines stack)
  end.

(** The two [throw] statements of [require] itself, with the conditions
    under which the call reaches them. *)
Inductive own_throw (st : registry) (moduleName : string) : value → Prop :=
| throws_not_found :
    scan st (candidates moduleName) = NoMatch →
    own_throw st moduleName (module_not_found moduleName st)
| throws_not_found_unnamed f :
    scan st (candidates moduleName) = Selected "" f →
    own_throw st moduleName (module_not_found moduleName st)
| throws_circular found f :
    scan st (candidates moduleName) = Selected found f →
    found ≠ "" →
    found ∈ loadingModules st →
    own_throw st moduleName (circular_dependency found).

(** A factory body that only writes properties of its pre-seeded exports
    object (and reads), and returns nothing. *)
Inductive in_place (exports : loc) : fac → Prop :=
| in_place_return : in_place exports (Return VUndef)
| in_place_set key v k :
    in_place exports k → in_place exports (SetProp exports key v k)
| in_place_get o key k :
    (∀ v, in_place exports (k v)) → in_place exports (GetProp o key k).

(** Every name in the loading set has its module record. *)
Definition loading_recorded (st : registry) : Prop :=
  ∀ k, k ∈ loadingModules st → is_Some (modules st !! k).

(** [require] without its test of the loading set, to compare with. *)
Definition require_body_unchecked (req : string → registry → outcome * registry)
    (moduleName : string) (st : registry) : outcome * registry :=
  match scan st (candidates moduleName) with
  | CacheHit exports => (Returns exports, st)
  | NoMatch => (Throws (module_not_found moduleName st), st)
  | Selected "" _ => (Throws (module_not_found moduleName st), st)
  | Selected found moduleFactory => load req found moduleFactory st
  end.

Fixpoint require_unchecked (fuel : nat) (moduleName : string) (st : registry)
    : outcome * registry :=
  match fuel with
  | 0 => (OutOfFuel, st)
  | S fuel' => require_body_unchecked (require_unchecked fuel') moduleName st
  end.

(** ** Example units *)

(** A unit that requires [dep] and stores what it got under [key] of its
    exports; an exception of [require] is not caught. *)
Definition requiring (dep key : string) : factory :=
  λ module exports,
    CallRequire dep (λ r,
      match r with
      | inl v => SetProp exports key v (Return VUndef)
      | inr e => Throw e
      end).

(** Units [A] and [B] that require each other. *)
Definition cycle_registry : registry :=
  let st := (__defineModule__ (requiring "B" "b") (Some "A") "" empty_registry).2 in
  (__defineModule__ (requiring "A" "a") (Some "B") "" st).2.

(** A unit that returns a fresh object with one property. *)
Definition returning (key : string) (v : value) : factory :=
  λ module exports, New (λ o, SetProp o key v (Return (VRef o))).

(** A unit that fills its pre-seeded exports and returns nothing. *)
Definition filling (key : string) (v : value) : factory :=
  λ module exports, SetProp exports key v (Return VUndef).

(** A unit that fills its exports, then throws. *)
Definition failing (key : string) (v e : value) : factory :=
  λ module exports, SetProp exports key v (Throw e).

(** The registry with the single unit [group/util]. *)
Definition util_registry : registry :=
  (__defineModule__ (filling "name" (VStr "util")) (Some "group/util") "" empty_registry).2.

(** A registry with one unit, registered under [name]. *)
Definition single (name : string) (f : factory) : registry :=
  (__defineModule__ f (Some name) "" empty_registry).2.

(** The unit of calculator.js: [module.exports = { add, subtract,
    multiply, divide }]. *)
Definition calculator : factory :=
  λ module exports,
    New (λ o,
      SetProp o "add" (VFun "add")
        (SetProp o "subtract" (VFun "subtract")
           (SetProp o "multiply" (VFun "multiply")
              (SetProp o "divide" (VFun "divide")
                 (SetProp module "exports" (VRef o) (Return VUndef)))))).

(** The unit the shim registers for itself, under the explicit name
    [CommonJS], and the registry once the shim is loaded. *)
Definition shim : factory :=
  λ module exports,
    New (λ o,
      SetProp o "getModuleInfo" (VFun "getModuleInfo")
        (SetProp o "getModules" (VFun "getModules")
           (SetProp o "require" (VFun "require")
              (SetProp o "__defineModule__" (VFun "__defineModule__")
                 (SetProp o "__getCurrentModule__" (VFun "__getCurrentModule__")
                    (Return (VRef o))))))).

Definition initial_registry : registry :=
  (__defineModule__ shim (Some "CommonJS") "" empty_registry).2.

Definition calculator_registry : registry := single "calculator" calculator.
Definition calculator_loaded : registry := (require 1 "calculator" calculator_registry).2.

(** ** The debug functions *)

Module ModuleInfo.
Record t := Make {
  registered : list string;
  loaded : list string;
  loading : list string;
}.
End ModuleInfo.

(** [getModuleInfo()]: the keys of the two objects and the elements of
    the loading set (a [Set]; the order in which it lists names that are
    loading is not modelled). *)
Definition getModuleInfo (st : registry) : ModuleInfo.t :=
  ModuleInfo.Make (registered st) (object_keys (moduleKeys st))
                  (elements (loadingModules st)).

(** [getModules()] *)
Definition getModules (st : registry) : gmap string loc := modules st.

(** The calls that go through [__defineModule__] and [require] only. *)
Definition registry_call (c : call) : bool :=
  match c with
  | Current _ => false
  | _ => true
  end.

(** Every call of the sequence returns or throws. *)
Fixpoint completes (cs : list call) (st : registry) : Prop :=
  match cs with
  | [] => True
  | c :: cs' => (do_call c st).1 ≠ OutOfFuel ∧ completes cs' (do_call c st).2
  end.

(** The key [k] is in use: [modules[k]] or [moduleFactories[k]] is
    truthy, by an own property or by an inherited member. *)
Definition in_use (st : registry) (k : string) : Prop :=
  is_Some (modules st !! k) ∨ is_Some (moduleFactories st !! k) ∨ is_Some (inherited k).

Definition unused (st : registry) (k : string) : Prop :=
  modules st !! k = None ∧ moduleFactories st !! k = None ∧ inherited k = None.

(** The creation order of the own properties lists them all, and nothing
    else. *)
Definition keyed (st : registry) : Prop :=
  (∀ k, k ∈ moduleKeys st ↔ is_Some (modules st !! k)) ∧
  (∀ k, k ∈ factoryKeys st ↔ is_Some (moduleFactories st !! k)).

(** A name without a directory part. *)
Definition no_slash (s : string) : bool :=
  forallb (λ a, negb (Ascii.eqb a Patterns.slash)) (Str.chars s).

(** ** Stack frames of the form [at path:line:column]

    The vocabulary of the statements about the two stack walkers: what a
    frame is made of, and the loop of the matcher on a starred pattern. *)

(** The loop of [Regex.m] on [Star r1] followed by [k], with its fuel. *)
Section StarLoop.
Variable r1 : Regex.re.
Variable k : nat → list ascii → Regex.caps → option (nat * Regex.caps).
Fixpoint star_loop (n i : nat) (s : list ascii) (c : Regex.caps)
    : option (nat * Regex.caps) :=
  match n with
  | 0 => k i s c
  | S n' =>
      match Regex.m r1 i s c (λ i' s' c', if i <? i' then star_loop n' i' s' c' else None) with
      | Some x => Some x
      | None => k i s c
      end
  end.
End StarLoop.

(** The input ends, or goes on with a character outside the class [p]. *)
Definition stops (p : ascii → bool) (rest : list ascii) : bool :=
  match rest with
  | [] => true
  | a :: _ => negb (p a)
  end.

(** A continuation that fails on every input that does not start with [ch]. *)
Definition fails_unless (ch : ascii)
    (k : nat → list ascii → Regex.caps → option (nat * Regex.caps)) : Prop :=
  ∀ i s c, match s with a :: _ => Ascii.eqb ch a | [] => false end = false → k i s c = None.

(** The class [[^/\s:]] of [Patterns.seg]. *)
Definition seg_char (a : ascii) : bool :=
  negb (existsb (Ascii.eqb a) [Patterns.slash; Patterns.colon]) && negb (true && Str.is_space a).

(** A path segment: one or more characters of [[^/\s:]]. *)
Definition good_seg (s : list ascii) : bool :=
  match s with
  | [] => false
  | _ => forallb seg_char s
  end.

(** A line or column number: one or more digits. *)
Definition good_digits (s : list ascii) : bool :=
  match s with
  | [] => false
  | _ => forallb Str.is_digit s
  end.

(** The segments after the first, each behind its slash. *)
Definition tail_chars (ss : list (list ascii)) : list ascii :=
  concat (map (cons Patterns.slash) ss).

Definition path_chars (segs : list (list ascii)) : list ascii :=
  match segs with
  | [] => []
  | s :: ss => s ++ tail_chars ss
  end.

(** The final continuation of [Regex.search_from]. *)
Definition k0 : nat → list ascii → Regex.caps → option (nat * Regex.caps) :=
  λ i' _ c', Some (i', c').

(** The parts of [Patterns.virtual_path] after [at\s+]. *)
Definition dir_part : Regex.re :=
  Regex.Group 1 (Regex.Cat (Regex.Plus Patterns.seg) (Regex.Chr Patterns.slash)).

Definition file_part : Regex.re :=
  Regex.Cat
    (Regex.Group 2
       (Regex.Cat (Regex.Plus Patterns.seg)
          (Regex.Star (Regex.Cat (Regex.Chr Patterns.slash) (Regex.Plus Patterns.seg)))))
    Patterns.line_col.

Definition at_chars : list ascii := Str.chars "at ".

(** The captures of the virtual-path pattern on a frame. *)
Definition frame_caps (segs : list (list ascii)) : Regex.caps :=
  match segs with
  | [] => []
  | [s] => [(2, s)]
  | s1 :: s2 :: ss => [(2, s2 ++ tail_chars ss); (1, s1 ++ [Patterns.slash])]
  end.

Definition segment (s : string) : bool := good_seg (Str.chars s).
Definition digits (s : string) : bool := good_digits (Str.chars s).
Definition spaces (s : string) : bool := forallb Str.is_space (Str.chars s).

(** The frame of a unit in a stack trace: [at path:line:column]. *)
Definition frame (path l c : string) : string :=
  "at " +:+ path +:+ ":" +:+ l +:+ ":" +:+ c.

(** * Properties *)

(** ** Strings *)

Lemma append_nil (b : string) : "" +:+ b = b.
Proof. reflexivity. Qed.

Lemma append_cons (x : ascii) (a b : string) : String x a +:+ b = String x (a +:+ b).
Proof. reflexivity. Qed.

Lemma append_assoc (a b c : string) : (a +:+ b) +:+ c = a +:+ b +:+ c.
Proof.
  induction a as [|x a IH]; [done|]. by rewrite !append_cons, IH.
Qed.

Lemma append_empty_r (a : string) : a +:+ "" = a.
Proof.
  induction a as [|x a IH]; [done|]. by rewrite append_cons, IH.
Qed.

Lemma occurs_in_refl (s : string) : Str.occurs_in s s.
Proof. exists "", "". by rewrite append_nil, append_empty_r. Qed.

Lemma occurs_in_app_l (p a s : string) : Str.occurs_in p s → Str.occurs_in p (a +:+ s).
Proof.
  intros (x & y & ->). exists (a +:+ x), y. by rewrite append_assoc.
Qed.

Lemma occurs_in_app_r (p s b : string) : Str.occurs_in p s → Str.occurs_in p (s +:+ b).
Proof.
  intros (x & y & ->). exists x, (y +:+ b). by rewrite !append_assoc.
Qed.

Lemma occurs_in_join (sep p : string) (l : list string) :
  p ∈ l → Str.occurs_in p (Str.join sep l).
Proof.
  unfold Str.join. induction l as [|x l IH]; intros Hin.
  - by apply elem_of_nil in Hin.
  - apply elem_of_cons in Hin as [->|Hin].
    + destruct l as [|y l]; simpl.
      * apply occurs_in_refl.
      * apply occurs_in_app_r, occurs_in_refl.
    + destruct l as [|y l]; [by apply elem_of_nil in Hin|].
      change (String.concat sep (x :: y :: l))
        with (x +:+ sep +:+ String.concat sep (y :: l)).
      by apply occurs_in_app_l, occurs_in_app_l, IH.
Qed.

(** ** The load counter *)

Lemma loads_app (k : string) (l1 l2 : list log_line) :
  loads k (l1 ++ l2) = loads k l1 + loads k l2.
Proof. unfold loads. by rewrite filter_app, length_app. Qed.

Lemma loads_loading (k found : string) :
  loads k [LogLoading found] = if decide (found = k) then 1 else 0.
Proof.
  unfold loads. rewrite filter_cons, filter_nil.
  repeat case_decide; simplify_eq; done.
Qed.

Lemma loads_other (k : string) (x : log_line) :
  (∀ found, x ≠ LogLoading found) → loads k [x] = 0.
Proof.
  intros Hx. unfold loads. rewrite filter_cons, filter_nil.
  case_decide; [by destruct (Hx k)|done].
Qed.

(** ** The heap *)

Lemma length_set_prop (h : list obj) (o : loc) (key : string) (v : value) :
  length (set_prop h o key v) = length h.
Proof. unfold set_prop. destruct (h !! o); [apply length_insert|done]. Qed.

Lemma get_set_prop (h : list obj) (o : loc) (key : string) (v : value) :
  o < length h → get_prop (set_prop h o key v) o key = v.
Proof.
  intros Hlt. unfold get_prop, set_prop.
  destruct (lookup_lt_is_Some_2 h o Hlt) as [props Hp]. rewrite Hp.
  rewrite list_lookup_insert_eq by done. by rewrite lookup_insert_eq.
Qed.

(** ** The scan of the candidates *)

Lemma scan_selected (st : registry) (cands : list string) (found : string) (f : factory) :
  scan st cands = Selected found f →
  found ∈ cands ∧ modules st !! found = None ∧ moduleFactories st !! found = Some f.
Proof.
  induction cands as [|c cands IH]; simpl; [done|].
  destruct (modules st !! c) eqn:Hm; [done|].
  destruct (inherited c) eqn:Hi; [done|].
  destruct (moduleFactories st !! c) eqn:Hf.
  - intros [= <- <-]. split; [apply elem_of_cons; auto|done].
  - intros H. destruct (IH H) as (? & ? & ?). split; [apply elem_of_cons; auto|done].
Qed.

(** The name selected is no member of [Object.prototype]. *)
Lemma scan_selected_own (st : registry) (cands : list string) (found : string) (f : factory) :
  scan st cands = Selected found f → inherited found = None.
Proof.
  induction cands as [|c cands IH]; simpl; [done|].
  destruct (modules st !! c) eqn:Hm; [done|].
  destruct (inherited c) eqn:Hi; [done|].
  destruct (moduleFactories st !! c) eqn:Hf; [|done].
  by intros [= <- <-].
Qed.

Lemma scan_no_match (st : registry) (cands : list string) :
  scan st cands = NoMatch ↔ ∀ c, c ∈ cands → unused st c.
Proof.
  unfold unused. induction cands as [|c cands IH]; simpl.
  - split; [intros _ c Hc; by apply elem_of_nil in Hc|done].
  - destruct (modules st !! c) eqn:Hm.
    { split; [done|]. intros H. destruct (H c) as [H1 _]; [apply elem_of_cons; auto|congruence]. }
    destruct (inherited c) eqn:Hi.
    { split; [done|]. intros H. destruct (H c) as (_ & _ & H1); [apply elem_of_cons; auto|congruence]. }
    destruct (moduleFactories st !! c) eqn:Hf.
    { split; [done|]. intros H. destruct (H c) as (_ & H1 & _); [apply elem_of_cons; auto|congruence]. }
    rewrite IH. split.
    + intros H c' Hc'. apply elem_of_cons in Hc' as [->|Hc']; [done|by apply H].
    + intros H c' Hc'. apply H. apply elem_of_cons; auto.
Qed.

(** A scan that selected a factory meets the module record instead, once
    the record exists, in any later registry that gave no record to a
    name without a factory. *)
Lemma scan_after_load (st st' : registry) (cands : list string)
    (found : string) (f : factory) (module : loc) :
  scan st cands = Selected found f →
  (∀ c, modules st !! c = None → moduleFactories st !! c = None → modules st' !! c = None) →
  moduleFactories st' = moduleFactories st →
  modules st' !! found = Some module →
  scan st' cands = CacheHit (get_prop (heap st') module "exports").
Proof.
  intros Hscan Hnew Hfs Hfound.
  induction cands as [|c cands IH]; simpl in *; [done|].
  destruct (modules st !! c) eqn:Hm; [done|].
  destruct (inherited c) eqn:Hi; [done|].
  destruct (moduleFactories st !! c) eqn:Hf.
  - injection Hscan as -> _. by rewrite Hfound.
  - rewrite (Hnew c Hm Hf), Hfs, Hf. by apply IH.
Qed.

(** ** Registries that extend one another *)

Lemma fresh_load_same (st st' : registry) (k : string) :
  modules st' = modules st → fresh_load st st' k = 0.
Proof. unfold fresh_load. intros ->. by destruct (modules st !! k). Qed.

Lemma ext_refl (st : registry) : ext st st.
Proof.
  split; try done.
  - intros k Hk [x Hx]. congruence.
  - intros k. rewrite fresh_load_same by done. lia.
Qed.

Lemma fresh_load_trans (st1 st2 st3 : registry) (k : string) :
  modules st1 ⊆ modules st2 → modules st2 ⊆ modules st3 →
  fresh_load st1 st3 k = fresh_load st1 st2 k + fresh_load st2 st3 k.
Proof.
  intros H12 H23. unfold fresh_load.
  destruct (modules st1 !! k) as [m1|] eqn:E1.
  - rewrite (lookup_weaken _ _ _ _ E1 H12). done.
  - destruct (modules st2 !! k) as [m2|] eqn:E2.
    + by rewrite (lookup_weaken _ _ _ _ E2 H23).
    + by destruct (modules st3 !! k).
Qed.

Lemma ext_trans (st1 st2 st3 : registry) : ext st1 st2 → ext st2 st3 → ext st1 st3.
Proof.
  intros [F1 M1 N1 H1 C1 L1] [F2 M2 N2 H2 C2 L2]. split.
  - congruence.
  - by etrans.
  - intros k Hk Hk3. destruct (modules st2 !! k) as [m2|] eqn:E2.
    + apply N1; [done|by eexists].
    + rewrite <- F1. by apply N2.
  - lia.
  - congruence.
  - intros k. rewrite L2, L1, (fresh_load_trans st1 st2 st3) by done. lia.
Qed.

(** A step that leaves the maps and the console alone and logs no
    factory call. *)
Lemma ext_quiet (st st' : registry) :
  modules st' = modules st →
  moduleFactories st' = moduleFactories st →
  length (heap st) ≤ length (heap st') →
  console st' = console st →
  (∀ k, loads k (logger st') = loads k (logger st)) →
  ext st st'.
Proof.
  intros Hm Hf Hh Hc Hl. split; try done.
  - by rewrite Hm.
  - intros k Hk [x Hx]. congruence.
  - intros k. rewrite fresh_load_same by done. rewrite Hl. lia.
Qed.

Lemma ext_alloc (o : obj) (st : registry) : ext st (alloc o st).2.
Proof. apply ext_quiet; simpl; try done. rewrite length_app. lia. Qed.

Lemma ext_set_prop (st : registry) (o : loc) (key : string) (v : value) :
  ext st (with_heap (set_prop (heap st) o key v) st).
Proof. apply ext_quiet; simpl; try done. by rewrite length_set_prop. Qed.

Lemma ext_begin_load (st : registry) (found : string) (f : factory) :
  modules st !! found = None →
  moduleFactories st !! found = Some f →
  ext st (begin_load found st).2.
Proof.
  intros Hm Hf. split; simpl; try done.
  - by apply insert_subseteq.
  - intros k Hk [x Hx]. destruct (decide (found = k)) as [<-|Hne]; [by eexists|].
    rewrite lookup_insert_ne in Hx by done. congruence.
  - rewrite !length_app. simpl. lia.
  - intros k. rewrite loads_app, loads_loading. unfold fresh_load. simpl.
    destruct (decide (found = k)) as [<-|Hne].
    + by rewrite Hm, lookup_insert_eq.
    + rewrite lookup_insert_ne by done. destruct (modules st !! k); lia.
Qed.

Section RunExt.
Variable req : string → registry → outcome * registry.
Hypothesis req_ext : ∀ name st o st',
  req name st = (o, st') →
  ext st st' ∧ (o ≠ OutOfFuel → loadingModules st' = loadingModules st).

Lemma run_ext (p : fac) (st : registry) (o : outcome) (st' : registry) :
  run req p st = (o, st') →
  ext st st' ∧ (o ≠ OutOfFuel → loadingModules st' = loadingModules st).
Proof.
  revert st. induction p as [v|e|k IH|l key v k IH|l key k IH|name k IH];
    intros st Hrun; simpl in Hrun.
  - injection Hrun as <- <-. split; [apply ext_refl|done].
  - injection Hrun as <- <-. split; [apply ext_refl|done].
  - apply IH in Hrun as [He Hl]. split; [|done].
    eapply ext_trans; [apply (ext_alloc ∅ st)|done].
  - apply IH in Hrun as [He Hl]. split; [|done].
    eapply ext_trans; [apply ext_set_prop|done].
  - by apply IH in Hrun.
  - destruct (req name st) as [[v|e|] st1] eqn:Hreq.
    + apply req_ext in Hreq as [He1 Hl1]. apply IH in Hrun as [He Hl].
      split; [by eapply ext_trans|]. intros Ho. rewrite Hl, Hl1; done.
    + apply req_ext in Hreq as [He1 Hl1]. apply IH in Hrun as [He Hl].
      split; [by eapply ext_trans|]. intros Ho. rewrite Hl, Hl1; done.
    + injection Hrun as <- <-. apply req_ext in Hreq as [He1 _]. done.
Qed.
End RunExt.

(** The [finally] block undoes the insertion into the loading set. *)
Lemma end_load_restores (found : string) (ls : gset string) :
  found ∉ ls → ({[found]} ∪ ls) ∖ {[found]} = ls.
Proof.
  intros Hnotin. apply set_eq. intros x.
  rewrite elem_of_difference, elem_of_union, elem_of_singleton.
  split; [tauto|]. intros Hx. split; [tauto|]. by intros ->.
Qed.

(** The unfolding of [require] at a positive fuel. *)
Lemma require_S (fuel : nat) (moduleName : string) (st : registry) :
  require (S fuel) moduleName st = require_body (require fuel) moduleName st.
Proof. reflexivity. Qed.

Lemma load_ext (req : string → registry → outcome * registry)
    (found : string) (f : factory) (st : registry) (o : outcome) (st' : registry) :
  (∀ name st o st', req name st = (o, st') →
     ext st st' ∧ (o ≠ OutOfFuel → loadingModules st' = loadingModules st)) →
  modules st !! found = None →
  moduleFactories st !! found = Some f →
  found ∉ loadingModules st →
  load req found f st = (o, st') →
  ext st st' ∧ (o ≠ OutOfFuel → loadingModules st' = loadingModules st).
Proof.
  intros Hreq Hm Hf Hnotin Hload. unfold load in Hload.
  pose proof (ext_begin_load st found f Hm Hf) as Hb.
  destruct (begin_load found st) as [[module exports] st1] eqn:Hbegin.
  assert (Hl1 : loadingModules st1 = {[found]} ∪ loadingModules st).
  { unfold begin_load in Hbegin. simpl in Hbegin. by injection Hbegin as _ _ <-. }
  simpl in Hb.
  destruct (run req (f module exports) st1) as [[result|e|] st2] eqn:Hrun;
    apply (run_ext _ Hreq) in Hrun as [He2 Hl2]; injection Hload as <- <-.
  - split.
    + eapply ext_trans; [exact Hb|]. eapply ext_trans; [exact He2|].
      apply ext_quiet; simpl.
      * by destruct result.
      * by destruct result.
      * destruct result; simpl; rewrite ?length_set_prop; lia.
      * by destruct result.
      * intros k. destruct result; simpl;
          rewrite loads_app, (loads_other k (LogLoaded found)) by done; lia.
    + intros _. simpl.
      replace (loadingModules _) with (loadingModules st2) by by destruct result.
      rewrite Hl2, Hl1 by done. by apply end_load_restores.
  - split.
    + eapply ext_trans; [exact Hb|]. eapply ext_trans; [exact He2|].
      by apply ext_quiet.
    + intros _. simpl. rewrite Hl2, Hl1 by done. by apply end_load_restores.
  - split; [by eapply ext_trans|done].
Qed.

Lemma require_ext (fuel : nat) (moduleName : string) (st : registry)
    (o : outcome) (st' : registry) :
  require fuel moduleName st = (o, st') →
  ext st st' ∧ (o ≠ OutOfFuel → loadingModules st' = loadingModules st).
Proof.
  revert moduleName st o st'.
  induction fuel as [|fuel IH]; intros moduleName st o st' Hreq.
  { injection Hreq as <- <-. split; [apply ext_refl|done]. }
  rewrite require_S in Hreq.
  unfold require_body in Hreq.
  destruct (scan st (candidates moduleName)) as [v|found f|] eqn:Hscan.
  - injection Hreq as <- <-. split; [apply ext_refl|done].
  - apply scan_selected in Hscan as (_ & Hm & Hf).
    destruct found as [|a found'].
    { injection Hreq as <- <-. split; [apply ext_refl|done]. }
    destruct (decide (String a found' ∈ loadingModules st)) as [Hin|Hnotin].
    { injection Hreq as <- <-. split; [apply ext_refl|done]. }
    by eapply load_ext.
  - injection Hreq as <- <-. split; [apply ext_refl|done].
Qed.

(** ** Termination: the calls nest no deeper than the number of units
    that still wait for their module record *)

Lemma pending_ext (st st' : registry) : ext st st' → pending st' ≤ pending st.
Proof.
  intros He. unfold pending. apply subseteq_size.
  rewrite (ext_factories _ _ He).
  pose proof (subseteq_dom _ _ (ext_modules _ _ He)) as Hd.
  intros x. rewrite !elem_of_difference. intros [Hx Hn]. split; [done|].
  intros Hm. apply Hn. by apply Hd.
Qed.

Lemma pending_begin_load (st : registry) (found : string) (f : factory) :
  modules st !! found = None →
  moduleFactories st !! found = Some f →
  pending (begin_load found st).2 < pending st.
Proof.
  intros Hm Hf. unfold pending. apply subset_size. simpl.
  rewrite dom_insert_L. split.
  - intros x. rewrite !elem_of_difference, elem_of_union. tauto.
  - intros Hsub. specialize (Hsub found).
    rewrite !elem_of_difference, elem_of_union, elem_of_singleton in Hsub.
    destruct Hsub as [_ Hn].
    + split; [apply elem_of_dom; by eexists|]. by apply not_elem_of_dom.
    + apply Hn. by left.
Qed.

Section RunTerminates.
Variable req : string → registry → outcome * registry.
Variable fuel : nat.
Hypothesis req_ext : ∀ name st o st',
  req name st = (o, st') →
  ext st st' ∧ (o ≠ OutOfFuel → loadingModules st' = loadingModules st).
Hypothesis req_terminates : ∀ name st, pending st < fuel → (req name st).1 ≠ OutOfFuel.

Lemma run_terminates (p : fac) (st : registry) :
  pending st < fuel → (run req p st).1 ≠ OutOfFuel.
Proof.
  revert st. induction p as [v|e|k IH|l key v k IH|l key k IH|name k IH];
    intros st Hlt; simpl; try done.
  - apply IH. by eapply Nat.le_lt_trans; [apply pending_ext, (ext_alloc ∅ st)|].
  - apply IH. by eapply Nat.le_lt_trans; [apply pending_ext, ext_set_prop|].
  - by apply IH.
  - pose proof (req_terminates name st Hlt) as Ht.
    destruct (req name st) as [[v|e|] st1] eqn:Hreq; [| |done];
      apply req_ext in Hreq as [He _]; apply IH;
      by eapply Nat.le_lt_trans; [apply pending_ext|].
Qed.
End RunTerminates.

(** [require] returns or throws as soon as the fuel exceeds the number of
    pending units: it neither loops nor waits. *)
Theorem require_terminates (fuel : nat) (moduleName : string) (st : registry) :
  pending st < fuel → (require fuel moduleName st).1 ≠ OutOfFuel.
Proof.
  revert moduleName st. induction fuel as [|fuel IH]; intros moduleName st Hlt; [lia|].
  rewrite require_S.
  unfold require_body.
  destruct (scan st (candidates moduleName)) as [v|found f|] eqn:Hscan; [done| |done].
  apply scan_selected in Hscan as (_ & Hm & Hf).
  destruct found as [|a found']; [done|].
  destruct (decide (String a found' ∈ loadingModules st)) as [Hin|Hnotin]; [done|].
  unfold load.
  pose proof (pending_begin_load st _ f Hm Hf) as Hp.
  destruct (begin_load (String a found') st) as [[module exports] st1].
  simpl in Hp.
  pose proof (run_terminates (require fuel) fuel (require_ext fuel) IH
                (f module exports) st1) as Hrun.
  destruct (run (require fuel) (f module exports) st1) as [[result|e|] st2]; try done.
  apply Hrun. lia.
Qed.

(** ** What a load leaves behind *)

Lemma load_record (req : string → registry → outcome * registry)
    (found : string) (f : factory) (st : registry) (o : outcome) (st' : registry) :
  (∀ name st o st', req name st = (o, st') →
     ext st st' ∧ (o ≠ OutOfFuel → loadingModules st' = loadingModules st)) →
  load req found f st = (o, st') →
  modules st' !! found = Some (S (length (heap st))) ∧
  (∀ v, o = Returns v → v = get_prop (heap st') (S (length (heap st))) "exports").
Proof.
  intros Hreq Hload. unfold load in Hload.
  destruct (begin_load found st) as [[module exports] st1] eqn:Hbegin.
  assert (Hm1 : modules st1 !! found = Some module ∧ module = S (length (heap st))).
  { unfold begin_load in Hbegin. simpl in Hbegin. injection Hbegin as <- _ <-. simpl.
    rewrite lookup_insert_eq, length_app. simpl. split; [done|lia]. }
  destruct Hm1 as [Hm1 ->].
  destruct (run req (f _ exports) st1) as [[result|e|] st2] eqn:Hrun;
    apply (run_ext _ Hreq) in Hrun as [He2 _]; injection Hload as <- <-;
    pose proof (lookup_weaken _ _ _ _ Hm1 (ext_modules _ _ He2)) as Hm2.
  - split; [by destruct result|]. intros v [= <-]. done.
  - split; [done|]. intros v [=].
  - split; [done|]. intros v [=].
Qed.

(** A call of [require] that returned is repeated by a cache hit: the
    same value, and the registry as it was. *)
Lemma require_again (fuel fuel' : nat) (moduleName : string) (st st1 : registry) (v : value) :
  require fuel moduleName st = (Returns v, st1) →
  require (S fuel') moduleName st1 = (Returns v, st1).
Proof.
  destruct fuel as [|fuel]; [done|].
  rewrite !require_S.
  unfold require_body.
  destruct (scan st (candidates moduleName)) as [v0|found f|] eqn:Hscan.
  - intros [= <- <-]. by rewrite Hscan.
  - destruct found as [|a found']; [done|].
    destruct (decide (String a found' ∈ loadingModules st)) as [Hin|Hnotin]; [done|].
    intros Hload.
    pose proof (scan_selected _ _ _ _ Hscan) as (_ & Hm & Hf).
    pose proof (load_ext _ _ _ _ _ _ (require_ext fuel) Hm Hf Hnotin Hload) as [He _].
    pose proof (load_record _ _ _ _ _ _ (require_ext fuel) Hload) as [Hrec Hv].
    rewrite (scan_after_load st st1 _ _ f (S (length (heap st))) Hscan).
    + by rewrite <- (Hv v eq_refl).
    + intros c Hc Hfc. destruct (modules st1 !! c) eqn:Hc1; [|done].
      destruct (ext_new _ _ He c Hc) as [g Hg]; [by eexists|congruence].
    + apply (ext_factories _ _ He).
    + done.
  - done.
Qed.

Lemma require_times_again (n fuel fuel' : nat) (moduleName : string)
    (st st1 : registry) (v : value) :
  require fuel moduleName st = (Returns v, st1) →
  require_times n (S fuel') moduleName st1 = (replicate n (Returns v), st1).
Proof.
  intros Hfirst. induction n as [|n IH]; [done|].
  cbn [require_times]. rewrite (require_again fuel fuel' _ st st1 v Hfirst).
  by rewrite IH.
Qed.

(** ** Every call of the public surface only adds to the registry *)

Lemma grows_refl (st : registry) : grows st st.
Proof. split; [done|done|intros k; lia]. Qed.

Lemma fresh_load_le (st1 st2 st3 : registry) (k : string) :
  (∀ k, is_Some (modules st1 !! k) → is_Some (modules st2 !! k)) →
  (∀ k, is_Some (modules st2 !! k) → is_Some (modules st3 !! k)) →
  fresh_load st1 st2 k + fresh_load st2 st3 k ≤ fresh_load st1 st3 k.
Proof.
  intros H12 H23. unfold fresh_load.
  destruct (modules st1 !! k) as [m1|] eqn:E1.
  - destruct (H12 k) as [m2 ->]; [by eexists|]. done.
  - destruct (modules st2 !! k) as [m2|] eqn:E2.
    + destruct (H23 k) as [m3 ->]; [by eexists|]. done.
    + by destruct (modules st3 !! k).
Qed.

Lemma grows_trans (st1 st2 st3 : registry) : grows st1 st2 → grows st2 st3 → grows st1 st3.
Proof.
  intros [M1 G1 L1] [M2 G2 L2]. split.
  - intros k Hk. by apply M2, M1.
  - intros k. specialize (G1 k). specialize (G2 k). lia.
  - intros k. specialize (L1 k). specialize (L2 k).
    pose proof (fresh_load_le st1 st2 st3 k M1 M2). lia.
Qed.

Lemma grows_of_ext (st st' : registry) : ext st st' → grows st st'.
Proof.
  intros He. split.
  - intros k [m Hm]. exists m. by eapply lookup_weaken, ext_modules.
  - intros k. rewrite (ext_loads _ _ He). lia.
  - intros k. rewrite (ext_loads _ _ He). lia.
Qed.

Lemma grows_quiet (st st' : registry) :
  modules st' = modules st →
  (∀ k, loads k (logger st') = loads k (logger st)) →
  grows st st'.
Proof.
  intros Hm Hl. split.
  - intros k. by rewrite Hm.
  - intros k. by rewrite Hl.
  - intros k. rewrite Hl. lia.
Qed.

Lemma register_grows (f : factory) (name : string) (st : registry) :
  grows st (register f name st).2.
Proof.
  unfold register.
  destruct (moduleFactories st !! name), (inherited name); apply grows_quiet; simpl; try done.
  intros k. rewrite loads_app, loads_other by done. lia.
Qed.

Lemma detect_grows (stack : string) (st : registry) :
  grows st (__detectModuleName__ stack st).2.
Proof.
  unfold __detectModuleName__.
  destruct (detect_lines (stack_lines stack)); apply grows_quiet; simpl; try done;
    intros k; rewrite !loads_app, !loads_other by done; lia.
Qed.

Lemma define_grows (f : factory) (explicitName : option string) (stack : string)
    (st : registry) :
  grows st (__defineModule__ f explicitName stack st).2.
Proof.
  unfold __defineModule__.
  assert (Hdetect : grows st
    (match __detectModuleName__ stack st with
     | (inl moduleName, st') => register f moduleName st'
     | (inr e, st') => (Throws e, st')
     end).2).
  { pose proof (detect_grows stack st) as Hd.
    destruct (__detectModuleName__ stack st) as [[name|e] st1]; simpl in *; [|done].
    eapply grows_trans; [exact Hd|apply register_grows]. }
  destruct explicitName as [[|a s]|]; [done|apply register_grows|done].
Qed.

(** [__getCurrentModule__] changes nothing, whatever its outcome. *)
Lemma current_state (stack : string) (st : registry) :
  (__getCurrentModule__ stack st).2 = st.
Proof.
  unfold __getCurrentModule__.
  destruct (current_lines (stack_lines stack)) as [name|]; [|done].
  destruct (modules st !! name); [done|]. by destruct (inherited name).
Qed.

Lemma current_grows (stack : string) (st : registry) :
  grows st (__getCurrentModule__ stack st).2.
Proof. rewrite current_state. apply grows_refl. Qed.

Lemma do_call_grows (c : call) (st : registry) : grows st (do_call c st).2.
Proof.
  destruct c as [f explicitName stack|fuel moduleName|stack]; simpl.
  - apply define_grows.
  - destruct (require fuel moduleName st) as [o st'] eqn:Hreq.
    apply require_ext in Hreq as [He _]. by apply grows_of_ext.
  - apply current_grows.
Qed.

Lemma process_grows (cs : list call) (st : registry) : grows st (process cs st).
Proof.
  revert st. induction cs as [|c cs IH]; intros st; [apply grows_refl|].
  simpl. eapply grows_trans; [apply do_call_grows|apply IH].
Qed.

Lemma loads_consistent_grows (st st' : registry) :
  loads_consistent st → grows st st' → loads_consistent st'.
Proof.
  intros Hc [M G L] k. specialize (Hc k) as [Hle Hnone]. specialize (L k).
  unfold fresh_load in L.
  destruct (modules st !! k) as [m|] eqn:Hk.
  - destruct (M k) as [m' Hm']; [by eexists|]. rewrite Hm' in *.
    split; [lia|done].
  - rewrite Hnone in L by done.
    destruct (modules st' !! k) as [m'|]; split; try lia; done.
Qed.

Lemma loads_consistent_empty : loads_consistent empty_registry.
Proof. intros k. split; [by compute; lia|done]. Qed.

(** ** Single instantiation *)

Lemma candidates_head (moduleName : string) :
  ∃ rest, candidates moduleName = moduleName :: rest.
Proof. unfold candidates. simpl. by eexists. Qed.

Lemma scan_registered (st : registry) (name : string) (f : factory) :
  moduleFactories st !! name = Some f →
  modules st !! name = None →
  inherited name = None →
  scan st (candidates name) = Selected name f.
Proof.
  intros Hf Hm Hi. destruct (candidates_head name) as [rest ->].
  simpl. by rewrite Hm, Hi, Hf.
Qed.

(** The calls of the public surface keep every module record. *)
Lemma register_modules (f : factory) (name : string) (st : registry) :
  modules (register f name st).2 = modules st.
Proof. unfold register. by destruct (moduleFactories st !! name), (inherited name). Qed.

Lemma define_modules (f : factory) (explicitName : option string) (stack : string)
    (st : registry) :
  modules (__defineModule__ f explicitName stack st).2 = modules st.
Proof.
  unfold __defineModule__, __detectModuleName__.
  destruct explicitName as [[|a s]|]; [|apply register_modules|];
    destruct (detect_lines (stack_lines stack)); simpl; try done;
    by rewrite register_modules.
Qed.

Lemma do_call_keeps (c : call) (st : registry) : modules st ⊆ modules (do_call c st).2.
Proof.
  destruct c as [f explicitName stack|fuel moduleName|stack]; simpl.
  - by rewrite define_modules.
  - destruct (require fuel moduleName st) as [o st'] eqn:Hreq.
    apply require_ext in Hreq as [He _]. apply (ext_modules _ _ He).
  - by rewrite current_state.
Qed.

Lemma process_keeps (cs : list call) (st : registry) : modules st ⊆ modules (process cs st).
Proof.
  revert st. induction cs as [|c cs IH]; intros st; [done|].
  simpl. etrans; [apply do_call_keeps|apply IH].
Qed.

(** In every process from the empty registry, no factory is called twice,
    and none is called for a name without a module record. *)
Lemma process_loads_consistent (cs : list call) :
  loads_consistent (process cs empty_registry).
Proof.
  eapply loads_consistent_grows; [apply loads_consistent_empty|apply process_grows].
Qed.

(** The same from the registry the shim leaves when it is loaded. *)
Corollary process_loads_consistent_initial (cs : list call) :
  loads_consistent (process cs initial_registry).
Proof. apply (process_loads_consistent (Define shim (Some "CommonJS") "" :: cs)). Qed.

(** C2. A unit is registered under [name] (no member of
    [Object.prototype] can be), has no module record, and its factory has
    not been called so far; it is required and the call returns [v]. Then
    the call ran the body of the factory, once, on the new module record
    and its pre-seeded exports: the run returned, the heap of the registry
    is the heap this run left (with the result stored as the record's
    exports, if there is one), and [v] is the exports of the record. The
    count of calls of the factory is one. The next [n] calls of [require]
    for the name, whatever [n], all return [v] (the same location, when
    [v] is an object) and leave the registry, heap included, as it is: the
    body is not run again. Whatever calls the process makes afterwards,
    the record registered under the name stays this one and the count of
    calls of the factory stays one. *)
Theorem require_single_instantiation (fuel : nat) (name : string) (f : factory)
    (st st1 : registry) (v : value) :
  moduleFactories st !! name = Some f →
  modules st !! name = None →
  inherited name = None →
  loads name (logger st) = 0 →
  require fuel name st = (Returns v, st1) →
  let module := (begin_load name st).1.1 in
  let exports := (begin_load name st).1.2 in
  (∃ fuel0 result st2,
     fuel = S fuel0 ∧
     run (require fuel0) (f module exports) (begin_load name st).2 = (Returns result, st2) ∧
     heap st1 = match result with
                | VUndef => heap st2
                | _ => set_prop (heap st2) module "exports" result
                end ∧
     v = get_prop (heap st1) module "exports") ∧
  modules st1 !! name = Some module ∧
  loads name (logger st1) = 1 ∧
  (∀ n fuel', require_times n (S fuel') name st1 = (replicate n (Returns v), st1)) ∧
  (∀ cs, modules (process cs st1) !! name = Some module ∧
         loads name (logger (process cs st1)) = 1).
Proof.
  intros Hf Hm Hi Hl Hreq module exports.
  assert (Hrun : (∃ fuel0 result st2,
     fuel = S fuel0 ∧
     run (require fuel0) (f module exports) (begin_load name st).2 = (Returns result, st2) ∧
     heap st1 = match result with
                | VUndef => heap st2
                | _ => set_prop (heap st2) module "exports" result
                end ∧
     v = get_prop (heap st1) module "exports") ∧
     modules st1 !! name = Some module).
  { destruct fuel as [|fuel]; [done|].
    pose proof Hreq as Hreq'. rewrite require_S in Hreq'.
    unfold require_body in Hreq'. rewrite (scan_registered st name f Hf Hm Hi) in Hreq'.
    destruct name as [|a name']; [done|].
    destruct (decide (String a name' ∈ loadingModules st)); [done|].
    pose proof (load_record _ _ _ _ _ _ (require_ext fuel) Hreq') as [Hrec _].
    assert (Hmod : module = S (length (heap st))).
    { unfold module, begin_load. simpl. rewrite length_app. simpl. lia. }
    split; [|by rewrite Hmod].
    exists fuel. unfold load in Hreq'. subst module exports.
    destruct (begin_load (String a name') st) as [[m x] s1]. cbn [fst snd].
    destruct (run (require fuel) (f m x) s1) as [[result|e|] st2]; [|done..].
    exists result, st2. injection Hreq' as <- <-.
    split; [done|]. split; [done|]. split; by destruct result. }
  destruct Hrun as [Hrun Hrec].
  pose proof (require_ext _ _ _ _ _ Hreq) as [He _].
  assert (Hone : loads name (logger st1) = 1).
  { rewrite (ext_loads _ _ He), Hl. unfold fresh_load. by rewrite Hm, Hrec. }
  split; [done|]. split; [done|]. split; [done|]. split.
  - intros n fuel'. by eapply require_times_again.
  - intros cs. split.
    + by eapply lookup_weaken, process_keeps.
    + destruct (process_grows cs st1) as [_ G L].
      specialize (G name). specialize (L name).
      unfold fresh_load in L. rewrite Hrec in L. lia.
Qed.

Lemma require_single_instantiation_witness :
  let module := (begin_load "calculator" calculator_registry).1.1 in
  let exports := (begin_load "calculator" calculator_registry).1.2 in
  (∃ fuel0 result st2,
     1 = S fuel0 ∧
     run (require fuel0) (calculator module exports)
         (begin_load "calculator" calculator_registry).2 = (Returns result, st2) ∧
     heap calculator_loaded = match result with
                | VUndef => heap st2
                | _ => set_prop (heap st2) module "exports" result
                end ∧
     VRef 2 = get_prop (heap calculator_loaded) module "exports") ∧
  modules calculator_loaded !! "calculator" = Some module ∧
  loads "calculator" (logger calculator_loaded) = 1 ∧
  (∀ n fuel', require_times n (S fuel') "calculator" calculator_loaded
              = (replicate n (Returns (VRef 2)), calculator_loaded)) ∧
  (∀ cs, modules (process cs calculator_loaded) !! "calculator" = Some module ∧
         loads "calculator" (logger (process cs calculator_loaded)) = 1).
Proof.
  apply (require_single_instantiation 1 "calculator" calculator calculator_registry);
    vm_compute; reflexivity.
Defined.

(** The body of the calculator unit has run: its exports carry [add]. *)
Example calculator_exports :
  (require 1 "calculator" calculator_registry).1 = Returns (VRef 2) ∧
  get_prop (heap calculator_loaded) 2 "add" = VFun "add" ∧
  get_prop (heap calculator_loaded) 2 "divide" = VFun "divide".
Proof. vm_compute. done. Qed.

(** ** A factory that throws *)

(** C5. The scan selected the factory of [found] and the run of the
    factory threw [e]. Then [require] throws that same [e]; the loading
    set is as before the call, so [found] is not in it; the module record
    created for [found] stays registered; and any later [require] for the
    name returns the exports of that record as the factory left them,
    with the registry (its log of factory calls included) untouched. *)
Theorem require_factory_throws (fuel : nat) (moduleName found : string) (f : factory)
    (st st2 : registry) (e : value) :
  scan st (candidates moduleName) = Selected found f →
  found ≠ "" →
  found ∉ loadingModules st →
  run (require fuel) (f (begin_load found st).1.1 (begin_load found st).1.2)
      (begin_load found st).2 = (Throws e, st2) →
  let st' := end_load found st2 in
  let module := (begin_load found st).1.1 in
  require (S fuel) moduleName st = (Throws e, st') ∧
  loadingModules st' = loadingModules st ∧
  (found ∉ loadingModules st') ∧
  modules st' !! found = Some module ∧
  (∀ fuel', require (S fuel') moduleName st'
            = (Returns (get_prop (heap st') module "exports"), st')).
Proof.
  intros Hscan Hne Hnotin Hrun st' module.
  pose proof (scan_selected _ _ _ _ Hscan) as (_ & Hm & Hf).
  assert (Hload : load (require fuel) found f st = (Throws e, st')).
  { unfold load. destruct (begin_load found st) as [[m x] st1]. simpl in *.
    by rewrite Hrun. }
  assert (Hreq : require (S fuel) moduleName st = (Throws e, st')).
  { rewrite require_S.
    unfold require_body. rewrite Hscan. destruct found as [|a found']; [done|].
    by destruct (decide (String a found' ∈ loadingModules st)). }
  pose proof (load_ext _ _ _ _ _ _ (require_ext fuel) Hm Hf Hnotin Hload) as [He Hl].
  pose proof (load_record _ _ _ _ _ _ (require_ext fuel) Hload) as [Hrec _].
  assert (Hmod : module = S (length (heap st))).
  { unfold module, begin_load. simpl. rewrite length_app. simpl. lia. }
  split; [done|]. split; [by apply Hl|]. split; [by rewrite Hl|].
  split; [by rewrite Hmod|].
  intros fuel'.
  rewrite require_S.
  unfold require_body.
  rewrite (scan_after_load st st' _ _ f module Hscan); [done| | |by rewrite Hmod].
  - intros c Hc Hfc. destruct (modules st' !! c) eqn:Hc1; [|done].
    destruct (ext_new _ _ He c Hc) as [g Hg]; [by eexists|congruence].
  - apply (ext_factories _ _ He).
Qed.

Lemma require_factory_throws_witness :
  let st := single "broken" (failing "half" (VNum 1) (VStr "boom")) in
  let st' := (require 1 "broken" st).2 in
  require 1 "./broken.js" st = (Throws (VStr "boom"), st') ∧
  loadingModules st' = loadingModules st ∧
  ("broken" ∉ loadingModules st') ∧
  modules st' !! "broken" = Some 1 ∧
  (∀ fuel', require (S fuel') "./broken.js" st'
            = (Returns (get_prop (heap st') 1 "exports"), st')).
Proof.
  apply (require_factory_throws 0 "./broken.js" "broken"
           (failing "half" (VNum 1) (VStr "boom"))
           (single "broken" (failing "half" (VNum 1) (VStr "boom")))).
  - vm_compute. reflexivity.
  - discriminate.
  - vm_compute. discriminate.
  - vm_compute. reflexivity.
Defined.

(** ** Replacement semantics *)

Lemma set_prop_other (h : list obj) (o o' : loc) (key : string) (v : value) :
  o ≠ o' → set_prop h o key v !! o' = h !! o'.
Proof.
  intros Hne. unfold set_prop. destruct (h !! o); [|done].
  by rewrite list_lookup_insert_ne.
Qed.

(** A body that works in place returns nothing and writes one object only. *)
Lemma in_place_run (req : string → registry → outcome * registry)
    (exports : loc) (p : fac) (st : registry) :
  in_place exports p →
  ∃ h, run req p st = (Returns VUndef, with_heap h st) ∧
       length h = length (heap st) ∧
       ∀ o, o ≠ exports → h !! o = heap st !! o.
Proof.
  intros Hp. revert st. induction Hp as [|key v k Hk IH|o key k Hk IH]; intros st; simpl.
  - exists (heap st). by destruct st.
  - destruct (IH (with_heap (set_prop (heap st) exports key v) st)) as (h & Hrun & Hlen & Hh).
    exists h. split; [exact Hrun|]. simpl in *. split.
    + by rewrite Hlen, length_set_prop.
    + intros o Ho. by rewrite Hh, set_prop_other.
  - apply IH.
Qed.

Lemma begin_load_heap (found : string) (st : registry) :
  (begin_load found st).1.1 = S (length (heap st)) ∧
  (begin_load found st).1.2 = length (heap st) ∧
  heap (begin_load found st).2 !! S (length (heap st))
    = Some {["exports" := VRef (length (heap st))]}.
Proof.
  unfold begin_load. simpl. rewrite length_app. simpl.
  split; [lia|]. split; [done|].
  rewrite lookup_app_r; rewrite length_app; simpl; [|lia].
  by replace (S (length (heap st)) - (length (heap st) + 1)) with 0 by lia.
Qed.

(** C6. The scan selected the factory of [found], which is called with
    the new module record and its pre-seeded exports. If the run of the
    factory returns a value other than [undefined], [require] returns that
    value and the record's [exports] is that value. If the factory only
    writes properties of the pre-seeded exports object and returns
    nothing, [require] returns that very object, with the heap as the
    factory left it. *)
Theorem require_replacement_semantics (fuel : nat) (moduleName found : string)
    (f : factory) (st : registry) :
  scan st (candidates moduleName) = Selected found f →
  found ≠ "" →
  found ∉ loadingModules st →
  let module := (begin_load found st).1.1 in
  let exports := (begin_load found st).1.2 in
  let st1 := (begin_load found st).2 in
  (∀ result st2,
     run (require fuel) (f module exports) st1 = (Returns result, st2) →
     result ≠ VUndef →
     ∃ st', require (S fuel) moduleName st = (Returns result, st') ∧
            modules st' !! found = Some module ∧
            get_prop (heap st') module "exports" = result) ∧
  (in_place exports (f module exports) →
     ∃ st2 st', run (require fuel) (f module exports) st1 = (Returns VUndef, st2) ∧
                require (S fuel) moduleName st = (Returns (VRef exports), st') ∧
                heap st' = heap st2 ∧
                modules st' !! found = Some module ∧
                get_prop (heap st') module "exports" = VRef exports).
Proof.
  intros Hscan Hne Hnotin module exports st1.
  pose proof (scan_selected _ _ _ _ Hscan) as (_ & Hm & Hf).
  destruct (begin_load_heap found st) as (Hmod & Hexp & Hcell).
  assert (Hbody : require (S fuel) moduleName st = load (require fuel) found f st).
  { rewrite require_S.
    unfold require_body. rewrite Hscan. destruct found as [|a found']; [done|].
    by destruct (decide (String a found' ∈ loadingModules st)). }
  assert (Hload : ∀ result st2,
    run (require fuel) (f module exports) st1 = (Returns result, st2) →
    load (require fuel) found f st
    = (Returns (get_prop (heap (match result with
                                 | VUndef => st2
                                 | _ => with_heap (set_prop (heap st2) module "exports" result) st2
                                 end)) module "exports"),
       end_load found (log (LogLoaded found) (with_current (currentModule st)
         (match result with
          | VUndef => st2
          | _ => with_heap (set_prop (heap st2) module "exports" result) st2
          end))))).
  { intros result st2 Hrun. unfold load. subst module exports st1.
    destruct (begin_load found st) as [[m x] s1]. simpl in *. by rewrite Hrun. }
  split.
  - intros result st2 Hrun Hres.
    pose proof (Hload _ _ Hrun) as Hl.
    pose proof (run_ext _ (require_ext fuel) _ _ _ _ Hrun) as [He _].
    assert (Hlt : module < length (heap st2)).
    { eapply Nat.lt_le_trans; [|apply (ext_heap _ _ He)].
      apply lookup_lt_is_Some. subst module st1. rewrite Hmod, Hcell. by eexists. }
    assert (Hget : get_prop (heap (match result with
                                   | VUndef => st2
                                   | _ => with_heap (set_prop (heap st2) module "exports" result) st2
                                   end)) module "exports" = result).
    { destruct result; try done; simpl; by apply get_set_prop. }
    pose proof (load_record _ _ _ _ _ _ (require_ext fuel) Hl) as [Hrec _].
    rewrite Hget in Hl.
    eexists. split; [by rewrite Hbody, Hl|].
    split; [rewrite Hrec; f_equal; symmetry; exact Hmod|exact Hget].
  - intros Hp.
    destruct (in_place_run (require fuel) exports _ st1 Hp) as (h & Hrun & Hlen & Hh).
    pose proof (Hload _ _ Hrun) as Hl. simpl in Hl.
    exists (with_heap h st1). eexists. split; [done|].
    split; [rewrite Hbody, Hl; f_equal; f_equal|].
    + unfold get_prop. rewrite Hh by (subst module exports; lia).
      subst module st1. by rewrite Hmod, Hcell.
    + split; [done|].
      pose proof (load_record _ _ _ _ _ _ (require_ext fuel) Hl) as [Hrec _].
      split; [rewrite Hrec; f_equal; symmetry; exact Hmod|].
      simpl. unfold get_prop. rewrite Hh by (subst module exports; lia).
      subst module st1. by rewrite Hmod, Hcell.
Qed.

Lemma require_replacement_semantics_witness :
  (∃ st', require 1 "lib" (single "lib" (returning "answer" (VNum 42)))
          = (Returns (VRef 2), st') ∧
          modules st' !! "lib" = Some 1 ∧
          get_prop (heap st') 1 "exports" = VRef 2) ∧
  (∃ st2 st', run (require 0) (filling "answer" (VNum 42) 1 0)
                  (begin_load "lib" (single "lib" (filling "answer" (VNum 42)))).2
              = (Returns VUndef, st2) ∧
              require 1 "lib" (single "lib" (filling "answer" (VNum 42)))
              = (Returns (VRef 0), st') ∧
              heap st' = heap st2 ∧
              modules st' !! "lib" = Some 1 ∧
              get_prop (heap st') 1 "exports" = VRef 0).
Proof.
  split.
  - destruct (require_replacement_semantics 0 "lib" "lib" (returning "answer" (VNum 42))
                (single "lib" (returning "answer" (VNum 42)))) as [H _].
    + vm_compute. reflexivity.
    + discriminate.
    + vm_compute. discriminate.
    + apply (H (VRef 2)
               (run (require 0) (returning "answer" (VNum 42) 1 0)
                    (begin_load "lib" (single "lib" (returning "answer" (VNum 42)))).2).2).
      * vm_compute. reflexivity.
      * discriminate.
  - destruct (require_replacement_semantics 0 "lib" "lib" (filling "answer" (VNum 42))
                (single "lib" (filling "answer" (VNum 42)))) as [_ H].
    + vm_compute. reflexivity.
    + discriminate.
    + vm_compute. discriminate.
    + apply H. apply in_place_set, in_place_return.
Defined.

(** ** The output channels do not steer the registry *)

Lemma silent_inv (st st' : registry) :
  silent st = silent st' →
  heap st = heap st' ∧ modules st = modules st' ∧
  moduleFactories st = moduleFactories st' ∧
  loadingModules st = loadingModules st' ∧ currentModule st = currentModule st' ∧
  moduleKeys st = moduleKeys st' ∧ factoryKeys st = factoryKeys st'.
Proof. destruct st, st'. unfold silent. simpl. intros [= -> -> -> -> -> -> ->]. done. Qed.

Lemma silent_intro (st st' : registry) :
  heap st = heap st' → modules st = modules st' →
  moduleFactories st = moduleFactories st' →
  loadingModules st = loadingModules st' → currentModule st = currentModule st' →
  moduleKeys st = moduleKeys st' → factoryKeys st = factoryKeys st' →
  silent st = silent st'.
Proof. destruct st, st'. unfold silent. simpl. by intros -> -> -> -> -> -> ->. Qed.

Lemma scan_silent (st st' : registry) (cands : list string) :
  silent st = silent st' → scan st cands = scan st' cands.
Proof.
  intros Hs. apply silent_inv in Hs as (Hh & Hm & Hf & _).
  induction cands as [|c cands IH]; simpl; [done|].
  by rewrite Hh, Hm, Hf, IH.
Qed.

Section RunSilent.
Variable req : string → registry → outcome * registry.
Hypothesis req_silent : ∀ name st st',
  silent st = silent st' →
  (req name st).1 = (req name st').1 ∧ silent (req name st).2 = silent (req name st').2.

Lemma run_silent (p : fac) (st st' : registry) :
  silent st = silent st' →
  (run req p st).1 = (run req p st').1 ∧ silent (run req p st).2 = silent (run req p st').2.
Proof.
  revert st st'. induction p as [v|e|k IH|l key v k IH|l key k IH|name k IH];
    intros st st' Hs; simpl; try done.
  - pose proof (silent_inv _ _ Hs) as (Hh & Hm & Hf & Hl & Hc & Hmk & Hfk). rewrite Hh.
    apply IH. apply silent_intro; simpl; congruence.
  - pose proof (silent_inv _ _ Hs) as (Hh & Hm & Hf & Hl & Hc & Hmk & Hfk).
    apply IH. apply silent_intro; simpl; congruence.
  - pose proof (silent_inv _ _ Hs) as (Hh & Hm & Hf & Hl & Hc & Hmk & Hfk). rewrite Hh.
    by apply IH.
  - destruct (req_silent name st st' Hs) as [Ho Hs1].
    destruct (req name st) as [o1 st1], (req name st') as [o1' st1'].
    simpl in Ho, Hs1. subst o1'. destruct o1 as [v|e|]; [by apply IH|by apply IH|done].
Qed.
End RunSilent.

Lemma load_silent (req : string → registry → outcome * registry)
    (found : string) (f : factory) (st st' : registry) :
  (∀ name st st', silent st = silent st' →
     (req name st).1 = (req name st').1 ∧ silent (req name st).2 = silent (req name st').2) →
  silent st = silent st' →
  (load req found f st).1 = (load req found f st').1 ∧
  silent (load req found f st).2 = silent (load req found f st').2.
Proof.
  intros Hreq Hs. pose proof (silent_inv _ _ Hs) as (Hh & Hm & Hf & Hl & Hc & Hmk & Hfk).
  unfold load.
  assert (Hb : (begin_load found st).1 = (begin_load found st').1 ∧
               silent (begin_load found st).2 = silent (begin_load found st').2).
  { unfold begin_load. simpl. rewrite Hh. split; [done|].
    apply silent_intro; simpl; congruence. }
  destruct (begin_load found st) as [[module exports] st1],
           (begin_load found st') as [[module' exports'] st1'].
  simpl in Hb. destruct Hb as [[= <- <-] Hs1].
  destruct (run_silent req Hreq (f module exports) st1 st1' Hs1) as [Ho Hs2].
  destruct (run req (f module exports) st1) as [o2 st2],
           (run req (f module exports) st1') as [o2' st2'].
  simpl in Ho, Hs2. subst o2'.
  pose proof (silent_inv _ _ Hs2) as (Hh2 & Hm2 & Hf2 & Hl2 & Hc2 & Hmk2 & Hfk2).
  destruct o2 as [result|e|]; simpl.
  - split.
    + destruct result; simpl; congruence.
    + apply silent_intro; destruct result; simpl; congruence.
  - split; [done|]. apply silent_intro; simpl; congruence.
  - done.
Qed.

Lemma require_silent (fuel : nat) (moduleName : string) (st st' : registry) :
  silent st = silent st' →
  (require fuel moduleName st).1 = (require fuel moduleName st').1 ∧
  silent (require fuel moduleName st).2 = silent (require fuel moduleName st').2.
Proof.
  revert moduleName st st'. induction fuel as [|fuel IH]; intros moduleName st st' Hs;
    [done|].
  rewrite !require_S.
  unfold require_body. rewrite <- (scan_silent st st' _ Hs).
  pose proof (silent_inv _ _ Hs) as (Hh & Hm & Hf & Hl & Hc & Hmk & Hfk).
  assert (Hmsg : module_not_found moduleName st = module_not_found moduleName st').
  { unfold module_not_found, registered. by rewrite Hfk. }
  destruct (scan st (candidates moduleName)) as [v|found f|]; simpl.
  - done.
  - destruct found as [|a found']; [by rewrite Hmsg|].
    rewrite <- Hl.
    destruct (decide (String a found' ∈ loadingModules st)); [done|].
    by apply load_silent.
  - by rewrite Hmsg.
Qed.

(** ** Registration *)

(** C7. The name [__defineModule__] resolves (the explicit one, else the
    detected one) already has a factory. Then the call returns normally,
    leaves [moduleFactories] (and the heap, the module records, the
    loading set) as they are, and ends by the duplicate warning on the
    console; and every later [require] has the outcome and the registry
    it would have had without the second registration, so it is the first
    factory that is called. *)
Theorem defineModule_duplicate_is_skipped (f1 f2 : factory)
    (explicitName : option string) (stack name : string) (st : registry) :
  resolved_name explicitName stack = Some name →
  moduleFactories st !! name = Some f1 →
  ∃ st', __defineModule__ f2 explicitName stack st = (Returns VUndef, st') ∧
         moduleFactories st' = moduleFactories st ∧
         moduleFactories st' !! name = Some f1 ∧
         silent st' = silent st ∧
         last (console st') = Some (duplicate_warning name) ∧
         ∀ fuel moduleName,
           (require fuel moduleName st').1 = (require fuel moduleName st).1 ∧
           silent (require fuel moduleName st').2 = silent (require fuel moduleName st).2.
Proof.
  intros Hname Hf.
  assert (Hreg : ∀ st0, silent st0 = silent st →
            ∃ st', register f2 name st0 = (Returns VUndef, st') ∧
                   silent st' = silent st ∧
                   last (console st') = Some (duplicate_warning name)).
  { intros st0 Hs0. pose proof (silent_inv _ _ Hs0) as (_ & _ & Hf0 & _).
    unfold register. rewrite Hf0, Hf. eexists. split; [done|].
    split; [by rewrite <- Hs0|]. simpl. by rewrite last_snoc. }
  assert (Hdef : ∃ st', __defineModule__ f2 explicitName stack st = (Returns VUndef, st') ∧
                        silent st' = silent st ∧
                        last (console st') = Some (duplicate_warning name)).
  { unfold __defineModule__, resolved_name in *.
    destruct explicitName as [[|a s]|].
    - unfold __detectModuleName__. rewrite Hname. by apply Hreg.
    - injection Hname as <-. by apply Hreg.
    - unfold __detectModuleName__. rewrite Hname. by apply Hreg. }
  destruct Hdef as (st' & Hdef & Hs & Hw). exists st'.
  pose proof (silent_inv _ _ Hs) as (_ & _ & Hfs & _).
  split; [done|]. split; [done|]. split; [by rewrite Hfs|]. split; [done|].
  split; [done|]. intros fuel moduleName. by apply require_silent.
Qed.

Lemma defineModule_duplicate_is_skipped_witness :
  ∃ st', __defineModule__ (returning "second" (VNum 2)) None
           "Error
    at __detectModuleName__ (CommonJS:53:13)
    at __defineModule__ (CommonJS:216:39)
    at calculator:26:1" calculator_registry = (Returns VUndef, st') ∧
         moduleFactories st' = moduleFactories calculator_registry ∧
         moduleFactories st' !! "calculator" = Some calculator ∧
         silent st' = silent calculator_registry ∧
         last (console st') = Some (duplicate_warning "calculator") ∧
         ∀ fuel moduleName,
           (require fuel moduleName st').1 = (require fuel moduleName calculator_registry).1 ∧
           silent (require fuel moduleName st').2
           = silent (require fuel moduleName calculator_registry).2.
Proof.
  apply (defineModule_duplicate_is_skipped calculator).
  - vm_compute. reflexivity.
  - vm_compute. reflexivity.
Defined.

(** ** The errors [require] raises itself *)

Lemma insert_index_elem (p q : N * string) (l : list (N * string)) :
  q ∈ insert_index p l ↔ q = p ∨ q ∈ l.
Proof.
  induction l as [|x l IH]; cbn [insert_index].
  - rewrite list_elem_of_singleton, elem_of_nil. tauto.
  - destruct (p.1 <=? x.1)%N.
    + by rewrite elem_of_cons.
    + rewrite !elem_of_cons, IH. tauto.
Qed.

Lemma sort_index_elem (q : N * string) (l : list (N * string)) :
  q ∈ foldr insert_index [] l ↔ q ∈ l.
Proof.
  induction l as [|x l IH]; cbn [foldr]; [done|].
  by rewrite insert_index_elem, elem_of_cons, IH.
Qed.

(** [Object.keys] lists the own properties, all of them and no other. *)
Lemma object_keys_elem (k : string) (order : list string) :
  k ∈ object_keys order ↔ k ∈ order.
Proof.
  unfold object_keys. rewrite elem_of_app, list_elem_of_fmap, list_elem_of_filter. split.
  - intros [((n & k') & -> & Hin)|[_ Hin]]; [|done].
    apply sort_index_elem, list_elem_of_omap in Hin as (x & Hx & Hsome).
    destruct (array_index x); by simplify_eq/=.
  - intros Hin. destruct (array_index k) as [n|] eqn:Hidx; [left|by right].
    exists (n, k). split; [done|].
    apply sort_index_elem, list_elem_of_omap. exists k. by rewrite Hidx.
Qed.

Lemma startsWith_app (p s : string) : Str.startsWith (p +:+ s) p = true.
Proof.
  unfold Str.startsWith. induction p as [|a p IH].
  - by destruct s.
  - rewrite append_cons. cbn [String.prefix].
    by destruct (ascii_dec a a).
Qed.

Lemma not_found_message_complete (moduleName : string) (cands keys : list string) :
  let message := not_found_message moduleName cands keys in
  Str.startsWith message "Module not found: " = true ∧
  Str.occurs_in moduleName message ∧
  (∀ c, c ∈ cands → Str.occurs_in c message) ∧
  (∀ k, k ∈ keys → Str.occurs_in k message).
Proof.
  unfold not_found_message. split; [apply startsWith_app|]. split; [|split].
  - eexists _, _. reflexivity.
  - intros c Hc. do 3 apply occurs_in_app_l.
    apply occurs_in_app_r. by apply occurs_in_join.
  - intros k Hk. do 5 apply occurs_in_app_l. by apply occurs_in_join.
Qed.

(** C8. The registry the shim leaves has the single unit [CommonJS] and
    no module record. No candidate of the requested names [constructor]
    and [lib/toString.js] matches a registered factory or a cached
    instance, yet [require] does not fail for them: the loop over the
    candidates reads [modules[candidate]] from a plain object, finds the
    member of [Object.prototype] of that name, and returns its [exports],
    [undefined]; the registry is as before. For the name [missing] the
    error is raised as the diagnostics promise. *)
Theorem require_inherited_name_is_found :
  registered initial_registry = ["CommonJS"] ∧
  modules initial_registry = ∅ ∧
  candidates "constructor" = ["constructor"; "constructor.js"] ∧
  require 1 "constructor" initial_registry = (Returns VUndef, initial_registry) ∧
  candidates "lib/toString.js"
  = ["lib/toString.js"; "lib/toString"; "lib/toString.js"; "toString"; "toString.js"] ∧
  require 1 "lib/toString.js" initial_registry = (Returns VUndef, initial_registry) ∧
  require 1 "missing" initial_registry
  = (Throws (VError (Error
       "Module not found: missing. Tried: missing, missing.js. Available modules: CommonJS")),
     initial_registry).
Proof. vm_compute. repeat split; reflexivity. Qed.

(** C10, as the code has it. A call of [require] that throws leaves the
    factories and the loading set exactly as they were and keeps every
    module record. Either the error is one of the two that [require]
    raises itself for the requested name, before it changes anything, and
    the registry is exactly the one the call started from; or the call
    had selected a unit, created and registered its module record and
    called its factory, and the error is the one the run of the factory
    ended with (the error of a nested [require] that found nothing, for
    one): then the record of the unit stays registered. So the whole
    registry is unchanged exactly when its module records are. *)
Theorem require_throw_registry (fuel : nat) (moduleName : string) (st st' : registry)
    (e : value) :
  require fuel moduleName st = (Throws e, st') →
  moduleFactories st' = moduleFactories st ∧
  loadingModules st' = loadingModules st ∧
  modules st ⊆ modules st' ∧
  ((own_throw st moduleName e ∧ st' = st) ∨
   (∃ found f fuel0 st2,
      fuel = S fuel0 ∧
      scan st (candidates moduleName) = Selected found f ∧
      run (require fuel0) (f (begin_load found st).1.1 (begin_load found st).1.2)
          (begin_load found st).2 = (Throws e, st2) ∧
      st' = end_load found st2 ∧
      modules st !! found = None ∧
      modules st' !! found = Some (begin_load found st).1.1)) ∧
  (modules st' = modules st → st' = st).
Proof.
  intros Hreq. pose proof (require_ext _ _ _ _ _ Hreq) as [He Hl].
  assert (Hcases : (own_throw st moduleName e ∧ st' = st) ∨
   (∃ found f fuel0 st2,
      fuel = S fuel0 ∧
      scan st (candidates moduleName) = Selected found f ∧
      run (require fuel0) (f (begin_load found st).1.1 (begin_load found st).1.2)
          (begin_load found st).2 = (Throws e, st2) ∧
      st' = end_load found st2 ∧
      modules st !! found = None ∧
      modules st' !! found = Some (begin_load found st).1.1)).
  { destruct fuel as [|fuel]; [done|].
    pose proof Hreq as Hbody. rewrite require_S in Hbody. unfold require_body in Hbody.
    destruct (scan st (candidates moduleName)) as [v|found f|] eqn:Hscan; [done| |].
    - destruct found as [|a found'].
      { injection Hbody as <- <-. left. split; [by eapply throws_not_found_unnamed|done]. }
      destruct (decide (String a found' ∈ loadingModules st)) as [Hin|Hnotin].
      { injection Hbody as <- <-. left. split; [by eapply throws_circular|done]. }
      right. exists (String a found'), f, fuel.
      pose proof (scan_selected _ _ _ _ Hscan) as (_ & Hm & Hf).
      pose proof (load_record _ _ _ _ _ _ (require_ext fuel) Hbody) as [Hrec _].
      assert (Hmod : (begin_load (String a found') st).1.1 = S (length (heap st))).
      { unfold begin_load. simpl. rewrite length_app. simpl. lia. }
      unfold load in Hbody.
      destruct (begin_load (String a found') st) as [[m x] s1]. cbn [fst snd] in *.
      destruct (run (require fuel) (f m x) s1) as [[result|e'|] st2] eqn:Hrun;
        [done| |done].
      injection Hbody as <- <-. exists st2. by rewrite Hmod, <- Hrec.
    - injection Hbody as <- <-. left. split; [by apply throws_not_found|done]. }
  split; [apply (ext_factories _ _ He)|]. split; [by apply Hl|].
  split; [apply (ext_modules _ _ He)|]. split; [done|].
  intros Hsame. destruct Hcases as [[_ ->]|(found & f & fuel0 & st2 & _ & _ & _ & _ & Hm & Hm')];
    [done|]. rewrite Hsame in Hm'. congruence.
Qed.

Lemma require_throw_registry_witness :
  let st := single "A" (requiring "missing" "m") in
  let st' := (require 2 "A" st).2 in
  let e := module_not_found "missing" (begin_load "A" st).2 in
  moduleFactories st' = moduleFactories st ∧
  loadingModules st' = loadingModules st ∧
  modules st ⊆ modules st' ∧
  ((own_throw st "A" e ∧ st' = st) ∨
   (∃ found f fuel0 st2,
      2 = S fuel0 ∧
      scan st (candidates "A") = Selected found f ∧
      run (require fuel0) (f (begin_load found st).1.1 (begin_load found st).1.2)
          (begin_load found st).2 = (Throws e, st2) ∧
      st' = end_load found st2 ∧
      modules st !! found = None ∧
      modules st' !! found = Some (begin_load found st).1.1)) ∧
  (modules st' = modules st → st' = st).
Proof.
  apply (require_throw_registry 2 "A" (single "A" (requiring "missing" "m"))).
  vm_compute. reflexivity.
Defined.

(** C10, as stated, fails: the factory of [A] requires a unit that does
    not exist. The call [require('A')] throws the "Module not found" error
    of the nested call, and the instances map is not as it was before the
    call: it holds the record of [A]. *)
Lemma require_nested_not_found_counterexample :
  let st := single "A" (requiring "missing" "m") in
  ∃ st',
    require 2 "A" st
    = (Throws (VError (Error
         "Module not found: missing. Tried: missing, missing.js. Available modules: A")),
       st') ∧
    modules st = ∅ ∧
    modules st' = {["A" := 1]} ∧
    modules st' ≠ modules st ∧
    moduleFactories st' = moduleFactories st ∧
    loadingModules st' = loadingModules st.
Proof.
  eexists. split; [vm_compute; reflexivity|]. split; [done|].
  split; [vm_compute; reflexivity|]. split; [|split; vm_compute; reflexivity].
  intros Heq. apply (f_equal (λ m : gmap string loc, m !! "A")) in Heq.
  vm_compute in Heq. discriminate.
Qed.

(** ** Cycles *)

(** A name with a module record is answered from the record, whether or
    not it is in the loading set. *)
Lemma require_reentry (fuel : nat) (name : string) (module : loc) (st : registry) :
  modules st !! name = Some module →
  require (S fuel) name st = (Returns (get_prop (heap st) module "exports"), st).
Proof.
  intros Hm.
  rewrite require_S.
  unfold require_body. destruct (candidates_head name) as [rest ->].
  simpl. by rewrite Hm.
Qed.

(** The name the scan selects has no module record, so it is not in the
    loading set of a registry where every loading name has its record. *)
Lemma selected_not_loading (st : registry) (cands : list string) (found : string)
    (f : factory) :
  loading_recorded st → scan st cands = Selected found f → found ∉ loadingModules st.
Proof.
  intros Hrec Hscan Hin. apply scan_selected in Hscan as (_ & Hm & _).
  destruct (Hrec found Hin) as [m Hm']. congruence.
Qed.

Lemma loading_recorded_begin_load (found : string) (st : registry) :
  loading_recorded st → loading_recorded (begin_load found st).2.
Proof.
  intros Hrec k. unfold begin_load. simpl.
  rewrite elem_of_union, elem_of_singleton. intros [->|Hk].
  - rewrite lookup_insert_eq. by eexists.
  - destruct (decide (found = k)) as [<-|Hne].
    + rewrite lookup_insert_eq. by eexists.
    + rewrite lookup_insert_ne by done. by apply Hrec.
Qed.

Lemma loading_recorded_mono (st st' : registry) :
  loading_recorded st →
  (∀ k, k ∈ loadingModules st' → k ∈ loadingModules st) →
  (∀ k, is_Some (modules st !! k) → is_Some (modules st' !! k)) →
  loading_recorded st'.
Proof. intros Hrec Hl Hm k Hk. by apply Hm, Hrec, Hl. Qed.

Section RunUnchecked.
Variables req req' : string → registry → outcome * registry.
Hypothesis req_same : ∀ name st, loading_recorded st → req name st = req' name st.
Hypothesis req_recorded : ∀ name st, loading_recorded st → loading_recorded (req name st).2.

Lemma run_unchecked (p : fac) (st : registry) :
  loading_recorded st →
  run req p st = run req' p st ∧ loading_recorded (run req p st).2.
Proof.
  revert st. induction p as [v|e|k IH|l key v k IH|l key k IH|name k IH];
    intros st Hrec; simpl; try done.
  - by apply IH.
  - by apply IH.
  - by apply IH.
  - rewrite <- (req_same name st Hrec). pose proof (req_recorded name st Hrec) as Hrec1.
    destruct (req name st) as [[v|e|] st1]; [by apply IH|by apply IH|done].
Qed.
End RunUnchecked.

Lemma load_unchecked (req req' : string → registry → outcome * registry)
    (found : string) (f : factory) (st : registry) :
  (∀ name st, loading_recorded st → req name st = req' name st) →
  (∀ name st, loading_recorded st → loading_recorded (req name st).2) →
  loading_recorded st →
  load req found f st = load req' found f st ∧
  loading_recorded (load req found f st).2.
Proof.
  intros Hsame Hrecd Hrec. unfold load.
  pose proof (loading_recorded_begin_load found st Hrec) as Hrec1.
  destruct (begin_load found st) as [[module exports] st1]. simpl in Hrec1.
  destruct (run_unchecked req req' Hsame Hrecd (f module exports) st1 Hrec1) as [<- Hrec2].
  destruct (run req (f module exports) st1) as [[result|e|] st2]; simpl in *.
  - split; [done|]. eapply loading_recorded_mono; [exact Hrec2| |].
    + intros k. simpl. rewrite elem_of_difference.
      intros [Hk _]. by destruct result.
    + intros k. by destruct result.
  - split; [done|]. eapply loading_recorded_mono; [exact Hrec2| |done].
    intros k. simpl. rewrite elem_of_difference. tauto.
  - done.
Qed.

(** In a registry where every loading name has its module record, as in
    every registry a process reaches from the empty one and at every call
    made by a factory, the test of the loading set changes nothing: the
    circular-dependency error is never raised. *)
Theorem circular_check_is_dead (fuel : nat) (moduleName : string) (st : registry) :
  loading_recorded st →
  require fuel moduleName st = require_unchecked fuel moduleName st ∧
  loading_recorded (require fuel moduleName st).2.
Proof.
  revert moduleName st. induction fuel as [|fuel IH]; intros moduleName st Hrec; [done|].
  rewrite require_S. cbn [require_unchecked].
  unfold require_body, require_body_unchecked.
  destruct (scan st (candidates moduleName)) as [v|found f|] eqn:Hscan; [done| |done].
  pose proof (selected_not_loading _ _ _ _ Hrec Hscan) as Hnotin.
  destruct found as [|a found']; [done|].
  destruct (decide (String a found' ∈ loadingModules st)); [done|].
  apply load_unchecked; [|by intros; apply IH|done].
  intros name st0 Hrec0. by apply IH.
Qed.

Lemma define_loading (f : factory) (explicitName : option string) (stack : string)
    (st : registry) :
  loadingModules (__defineModule__ f explicitName stack st).2 = loadingModules st.
Proof.
  assert (Hreg : ∀ name st0, loadingModules (register f name st0).2 = loadingModules st0).
  { intros name st0. unfold register.
    by destruct (moduleFactories st0 !! name), (inherited name). }
  unfold __defineModule__, __detectModuleName__.
  destruct explicitName as [[|a s]|]; [|apply Hreg|];
    destruct (detect_lines (stack_lines stack)); simpl; by rewrite ?Hreg.
Qed.

Lemma current_loading (stack : string) (st : registry) :
  loadingModules (__getCurrentModule__ stack st).2 = loadingModules st.
Proof. by rewrite current_state. Qed.

Lemma process_loading_recorded (cs : list call) (st : registry) :
  loading_recorded st → loading_recorded (process cs st).
Proof.
  revert st. induction cs as [|c cs IH]; intros st Hrec; [done|].
  simpl. apply IH. destruct c as [f explicitName stack|fuel moduleName|stack]; simpl.
  - eapply loading_recorded_mono; [exact Hrec| |].
    + intros k. by rewrite define_loading.
    + apply (grows_modules _ _ (define_grows f explicitName stack st)).
  - by apply circular_check_is_dead.
  - eapply loading_recorded_mono; [exact Hrec| |].
    + intros k. by rewrite current_loading.
    + apply (grows_modules _ _ (current_grows stack st)).
Qed.


(** C1. Units [A] and [B] require each other. The call [require('A')]
    returns normally: no circular-dependency error is raised. The inner
    [require('A')] made by the factory of [B] is answered from the module
    record of [A], registered before the factory of [A] was called, with
    the still empty exports of [A] (location 0), which [B] stores. *)
Theorem cycle_is_not_detected :
  ∃ st', require 3 "A" cycle_registry = (Returns (VRef 0), st') ∧
         get_prop (heap st') 2 "a" = VRef 0 ∧
         get_prop (heap st') 0 "b" = VRef 2 ∧
         logger st' = [LogRegistered "A"; LogRegistered "B"; LogLoading "A";
                       LogLoading "B"; LogLoaded "B"; LogLoaded "A"].
Proof. eexists. vm_compute. repeat split; reflexivity. Qed.

(** ** The context accessor *)

(** Without a module record to return, [__getCurrentModule__] evaluates
    the call of [__createModule__], an identifier that is declared
    nowhere: the reference error leaves the function, and the registry is
    as it was. *)
Lemma getCurrentModule_without_record (stack : string) (st : registry) :
  (∀ name, current_lines (stack_lines stack) = Some name →
           modules st !! name = None ∧ inherited name = None) →
  __getCurrentModule__ stack st
  = (Throws (VError (ReferenceError "__createModule__ is not defined")), st).
Proof.
  intros Hnone. unfold __getCurrentModule__.
  destruct (current_lines (stack_lines stack)) as [name|]; [|done].
  destruct (Hnone name eq_refl) as [-> ->]. done.
Qed.

(** C3. [__getCurrentModule__] raises. Called from the frame of the unit
    [calculator], registered but not loaded yet, it recovers the name,
    finds no module record under it and throws the reference error of the
    undeclared [__createModule__]: no record is created, nothing is
    registered. On a stack without a frame it throws the same error: there
    is no record under "unknown" either. Once the unit is loaded, the call
    from its frame returns its module record (location 1). *)
Theorem getCurrentModule_raises :
  __getCurrentModule__ "Error
    at calculator:26:1" calculator_registry
  = (Throws (VError (ReferenceError "__createModule__ is not defined")),
     calculator_registry) ∧
  modules calculator_registry = ∅ ∧
  __getCurrentModule__ "Error" calculator_loaded
  = (Throws (VError (ReferenceError "__createModule__ is not defined")),
     calculator_loaded) ∧
  modules calculator_loaded !! "unknown" = None ∧
  __getCurrentModule__ "Error
    at calculator:26:1" calculator_loaded = (Returns (VRef 1), calculator_loaded) ∧
  modules calculator_loaded !! "calculator" = Some 1.
Proof.
  split; [|split; [|split; [|split; [|split]]]]; vm_compute; reflexivity.
Qed.

(** A frame named after a member of [Object.prototype] is answered with
    that member, which is no module record. *)
Example getCurrentModule_inherited :
  (__getCurrentModule__ "Error
    at toString:3:1" calculator_loaded).1 = Returns (VFun "Object.prototype.toString").
Proof. vm_compute. done. Qed.

(** ** Name detection *)

Lemma first_of_none (ps : list (string → option string)) (line : string) :
  first_of ps line = None ↔ ∀ p, p ∈ ps → p line = None.
Proof.
  induction ps as [|p ps IH]; simpl.
  - split; [intros _ p Hp; by apply elem_of_nil in Hp|done].
  - destruct (p line) as [name|] eqn:Hp.
    + split; [done|]. intros H. rewrite (H p) in Hp; [done|apply elem_of_cons; auto].
    + rewrite IH. split.
      * intros H q Hq. apply elem_of_cons in Hq as [->|Hq]; [done|by apply H].
      * intros H q Hq. apply H. apply elem_of_cons; auto.
Qed.

Lemma first_of_some (ps : list (string → option string)) (line name : string) :
  first_of ps line = Some name → ∃ p, p ∈ ps ∧ p line = Some name.
Proof.
  induction ps as [|p ps IH]; simpl; [done|].
  destruct (p line) as [name'|] eqn:Hp.
  - intros [= <-]. exists p. split; [apply elem_of_cons; auto|done].
  - intros H. destruct (IH H) as (q & Hq & Hline). exists q.
    split; [apply elem_of_cons; auto|done].
Qed.

Lemma try_virtual_path_usable (line name : string) :
  try_virtual_path line = Some name → usable name = true.
Proof.
  unfold try_virtual_path. destruct (Regex.exec _ line) as [c|]; [|done].
  destruct (usable (virtual_path_name c)) eqn:Hu; [|done]. by intros [= <-].
Qed.

Lemma try_group1_usable (r : Regex.re) (line name : string) :
  try_group1 r line = Some name → usable name = true.
Proof.
  unfold try_group1. destruct (Regex.exec r line) as [c|]; [|done].
  destruct (usable (default "" (Regex.group c 1))) eqn:Hu; [|done]. by intros [= <-].
Qed.

Lemma detect_pattern_usable (p : string → option string) (line name : string) :
  p ∈ detect_patterns → p line = Some name → usable name = true.
Proof.
  unfold detect_patterns. rewrite !elem_of_cons, elem_of_nil.
  intros [->|[->|[->|[->|[->|[->|[->|[->|[]]]]]]]]];
    eauto using try_virtual_path_usable, try_group1_usable.
Qed.

Lemma usable_spec (name : string) :
  usable name = true →
  name ≠ "" ∧ name ≠ "eval" ∧ name ≠ "anonymous" ∧ name ≠ "CommonJS" ∧
  Str.startsWith name "__" = false.
Proof.
  unfold usable. rewrite !andb_true_iff, !negb_true_iff, !String.eqb_neq. tauto.
Qed.

Lemma detect_lines_none (ls : list string) :
  detect_lines ls = None ↔
  ∀ line p, line ∈ ls → skipped (Str.trim line) = false → p ∈ detect_patterns →
            p (Str.trim line) = None.
Proof.
  induction ls as [|l ls IH]; cbn [detect_lines].
  - split; [intros _ line p Hl; by apply elem_of_nil in Hl|done].
  - destruct (skipped (Str.trim l)) eqn:Hskip.
    + rewrite IH. split.
      * intros H line p Hline. apply elem_of_cons in Hline as [->|Hline];
          [congruence|by apply H].
      * intros H line p Hline. apply H. apply elem_of_cons; auto.
    + destruct (first_of detect_patterns (Str.trim l)) as [name|] eqn:Hfirst.
      * split; [done|]. intros H.
        assert (Hnone : first_of detect_patterns (Str.trim l) = None).
        { apply first_of_none. intros p Hp. apply (H l p); [apply elem_of_cons; auto|done..]. }
        congruence.
      * rewrite IH. split.
        -- intros H line p Hline Hs Hp. apply elem_of_cons in Hline as [->|Hline];
             [by eapply first_of_none|by apply H].
        -- intros H line p Hline. apply H. apply elem_of_cons; auto.
Qed.

Lemma detect_lines_some (ls : list string) (name : string) :
  detect_lines ls = Some name →
  ∃ line p, line ∈ ls ∧ skipped (Str.trim line) = false ∧ p ∈ detect_patterns ∧
            p (Str.trim line) = Some name.
Proof.
  induction ls as [|l ls IH]; cbn [detect_lines]; [done|].
  assert (Hrest : detect_lines ls = Some name →
    ∃ line p, line ∈ l :: ls ∧ skipped (Str.trim line) = false ∧ p ∈ detect_patterns ∧
              p (Str.trim line) = Some name).
  { intros H. destruct (IH H) as (line & p & Hline & Hrest). exists line, p.
    split; [apply elem_of_cons; auto|done]. }
  destruct (skipped (Str.trim l)) eqn:Hskip; [done|].
  destruct (first_of detect_patterns (Str.trim l)) as [name'|] eqn:Hfirst; [|done].
  intros [= <-]. destruct (first_of_some _ _ _ Hfirst) as (p & Hp & Hline).
  exists l, p. split; [apply elem_of_cons; auto|done].
Qed.

(** C9. If no line of the stack that [__detectModuleName__] does not
    skip yields a usable name under any of its patterns, the function
    throws the detection error, whose debug information holds the raw
    stack and its lines. A name it returns is usable (not empty, not
    [eval], [anonymous] or [CommonJS], not starting with two underscores)
    and was extracted by one of the patterns from a line of the stack it
    does not skip: there is no fallback name. The result depends on the
    stack alone. *)
Theorem detectModuleName_never_guesses (stack : string) (st : registry) :
  ((∀ line p, line ∈ stack_lines stack → skipped (Str.trim line) = false →
              p ∈ detect_patterns → p (Str.trim line) = None) →
   ∃ info,
     (__detectModuleName__ stack st).1
     = inr (VError (ErrorWith
         "Unable to detect module name from stack trace. Debug info: " info)) ∧
     stackTrace info = stack ∧ lines info = stack_lines stack) ∧
  (∀ name, (__detectModuleName__ stack st).1 = inl name →
     (name ≠ "" ∧ name ≠ "eval" ∧ name ≠ "anonymous" ∧ name ≠ "CommonJS" ∧
      Str.startsWith name "__" = false) ∧
     ∃ line p, line ∈ stack_lines stack ∧ skipped (Str.trim line) = false ∧
               p ∈ detect_patterns ∧ p (Str.trim line) = Some name) ∧
  (∀ st', (__detectModuleName__ stack st').1 = (__detectModuleName__ stack st).1).
Proof.
  unfold __detectModuleName__. split; [|split].
  - intros Hnone. apply detect_lines_none in Hnone. rewrite Hnone.
    eexists. split; [reflexivity|done].
  - intros name. destruct (detect_lines (stack_lines stack)) as [name'|] eqn:Hd; [|done].
    intros [= <-]. destruct (detect_lines_some _ _ Hd) as (line & p & Hline & Hs & Hp & Hm).
    split; [by eapply usable_spec, detect_pattern_usable|by exists line, p].
  - intros st'. by destruct (detect_lines (stack_lines stack)).
Qed.

Lemma detectModuleName_never_guesses_witness :
  ∃ info,
    (__detectModuleName__ "Error
    at eval:1:2
    at __defineModule__ (CommonJS:216:39)" empty_registry).1
    = inr (VError (ErrorWith
        "Unable to detect module name from stack trace. Debug info: " info)) ∧
    stackTrace info = "Error
    at eval:1:2
    at __defineModule__ (CommonJS:216:39)" ∧
    lines info = ["Error"; "    at eval:1:2"; "    at __defineModule__ (CommonJS:216:39)"].
Proof.
  destruct (detectModuleName_never_guesses "Error
    at eval:1:2
    at __defineModule__ (CommonJS:216:39)" empty_registry) as [H _].
  apply H. apply detect_lines_none. vm_compute. reflexivity.
Defined.

(** ** Normalization of the requested name *)

Lemma require_same_scan (fuel : nat) (name name' : string) (st : registry) :
  scan st (candidates name) = scan st (candidates name') →
  scan st (candidates name) ≠ NoMatch →
  (∀ f, scan st (candidates name) ≠ Selected "" f) →
  require fuel name st = require fuel name' st.
Proof.
  intros Hscan Hmatch Hnamed. destruct fuel as [|fuel]; [done|].
  rewrite !require_S.
  unfold require_body. rewrite <- Hscan.
  destruct (scan st (candidates name)) as [v|found f|]; [done| |done].
  destruct found as [|a found']; [by destruct (Hnamed f)|done].
Qed.

Lemma chars_of_chars (s : string) : Str.of_chars (Str.chars s) = s.
Proof. apply String.string_of_list_ascii_of_string. Qed.

Lemma search_bol_later (r : Regex.re) (i : nat) (s : list ascii) :
  Regex.search_from (Regex.Cat Regex.Bol r) (S i) s = None.
Proof.
  revert i. induction s as [|a s IH]; intros i; simpl; [done|]. apply IH.
Qed.

Lemma remove_lead_dot_slash (s : string) :
  Regex.remove Patterns.lead_dot ("./" +:+ s) = s.
Proof.
  unfold Regex.remove. simpl. rewrite append_nil. apply chars_of_chars.
Qed.

Lemma no_lead_dot (s : string) :
  Str.startsWith s "." = false →
  s = "" ∨ ∃ a s', s = String a s' ∧ Ascii.eqb Patterns.dot a = false.
Proof.
  destruct s as [|a s']; [by left|]. right. exists a, s'. split; [done|].
  unfold Str.startsWith in H. cbn [String.prefix] in H.
  destruct (ascii_dec "." a) as [<-|Hne]; [by destruct s'|].
  by apply Ascii.eqb_neq.
Qed.

Lemma remove_lead_dot_none (r : Regex.re) (s : string) :
  Str.startsWith s "." = false →
  Regex.remove (Regex.Cat Regex.Bol (Regex.Cat (Regex.Chr Patterns.dot) r)) s = s.
Proof.
  intros Hs. unfold Regex.remove.
  destruct (no_lead_dot s Hs) as [->|(a & s' & -> & Ha)]; [done|].
  cbn [Str.chars String.list_ascii_of_string Regex.search_from Regex.m Regex.Chr].
  rewrite Nat.eqb_refl, Ha. by rewrite search_bol_later.
Qed.

Lemma length_append (s p : string) :
  String.length (s +:+ p) = String.length s + String.length p.
Proof. induction s as [|a s IH]; [done|]. rewrite append_cons. simpl. by rewrite IH. Qed.

Lemma substring_whole (p : string) : String.substring 0 (String.length p) p = p.
Proof. induction p as [|a p IH]; [done|]. simpl. by rewrite IH. Qed.

Lemma substring_suffix (s p : string) :
  String.substring (String.length s) (String.length p) (s +:+ p) = p.
Proof.
  induction s as [|a s IH]; [apply substring_whole|]. rewrite append_cons. simpl. apply IH.
Qed.

Lemma substring_prefix (s p : string) :
  String.substring 0 (String.length s) (s +:+ p) = s.
Proof.
  induction s as [|a s IH]; [by destruct p|]. rewrite append_cons. simpl. by rewrite IH.
Qed.

Lemma endsWith_app (s p : string) : Str.endsWith (s +:+ p) p = true.
Proof.
  unfold Str.endsWith. rewrite length_append.
  replace (String.length s + String.length p - String.length p) with (String.length s) by lia.
  rewrite substring_suffix, String.eqb_refl, andb_true_r.
  apply Nat.leb_le. lia.
Qed.

Lemma drop_last_app (s p : string) : Str.drop_last (String.length p) (s +:+ p) = s.
Proof.
  unfold Str.drop_last. rewrite length_append.
  replace (String.length s + String.length p - String.length p) with (String.length s) by lia.
  apply substring_prefix.
Qed.

Lemma normalize_plain (s : string) :
  Str.startsWith s "." = false → Str.endsWith s ".js" = false → normalize s = s.
Proof.
  intros Hdot Hjs. unfold normalize, Patterns.lead_dot, Patterns.lead_dotdot.
  cbn [Patterns.seq]. rewrite (remove_lead_dot_none _ s) by done.
  rewrite (remove_lead_dot_none _ s) by done. by rewrite Hjs.
Qed.

Lemma startsWith_app_dot (s p : string) :
  s ≠ "" → Str.startsWith s "." = false → Str.startsWith (s +:+ p) "." = false.
Proof.
  intros Hne Hs. destruct s as [|a s']; [done|]. rewrite append_cons.
  unfold Str.startsWith in *. cbn [String.prefix] in *.
  destruct (ascii_dec "." a); [|done]. by destruct s'.
Qed.

Lemma normalize_dot_slash_js (s : string) :
  s ≠ "" → Str.startsWith s "." = false → normalize ("./" +:+ s +:+ ".js") = s.
Proof.
  intros Hne Hdot. unfold normalize.
  rewrite remove_lead_dot_slash.
  unfold Patterns.lead_dotdot. cbn [Patterns.seq].
  rewrite remove_lead_dot_none by by apply startsWith_app_dot.
  rewrite endsWith_app. apply (drop_last_app s ".js").
Qed.

Lemma candidates_dot_slash_js (s : string) :
  s ≠ "" → Str.startsWith s "." = false → Str.endsWith s ".js" = false →
  candidates ("./" +:+ s +:+ ".js") = ("./" +:+ s +:+ ".js") :: candidates s.
Proof.
  intros Hne Hdot Hjs. unfold candidates.
  rewrite normalize_dot_slash_js, normalize_plain by done.
  rewrite String.eqb_refl.
  assert (Hneq : String.eqb s ("./" +:+ s +:+ ".js") = false).
  { apply String.eqb_neq. intros Heq.
    destruct (no_lead_dot s Hdot) as [->|(a & s' & -> & Ha)]; [done|].
    injection Heq as -> _. by rewrite Ascii.eqb_refl in Ha. }
  by rewrite Hneq.
Qed.

(** No member of [Object.prototype] starts with a dot. *)
Lemma inherited_dot_slash (s : string) : inherited ("./" +:+ s) = None.
Proof. reflexivity. Qed.

(** The candidates of the three request forms of the example. *)
Lemma candidates_examples :
  candidates "./group/util.js"
  = ["./group/util.js"; "group/util"; "group/util.js"; "util"; "util.js"] ∧
  candidates "group/util" = ["group/util"; "group/util.js"; "util"; "util.js"] ∧
  candidates "util" = ["util"; "util.js"].
Proof. vm_compute. repeat split; reflexivity. Qed.

(** C4, as the code has it. For a name that is not empty, has no leading
    dot and no '.js' extension (such as 'group/util'), the request
    './name.js' normalizes to the name, and its candidates are the request
    as given followed by the candidates of the name. So, in a registry
    where the name has a factory or a module record and nothing is
    registered under the literal './name.js', [require('./name.js')] and
    [require(name)] have the same result: the same exports, the same
    registry afterwards. *)
Theorem require_normalized_forms (fuel : nat) (name : string) (st : registry) :
  name ≠ "" →
  Str.startsWith name "." = false →
  Str.endsWith name ".js" = false →
  modules st !! ("./" +:+ name +:+ ".js") = None →
  moduleFactories st !! ("./" +:+ name +:+ ".js") = None →
  is_Some (modules st !! name) ∨ is_Some (moduleFactories st !! name) →
  normalize ("./" +:+ name +:+ ".js") = name ∧
  candidates ("./" +:+ name +:+ ".js") = ("./" +:+ name +:+ ".js") :: candidates name ∧
  require fuel ("./" +:+ name +:+ ".js") st = require fuel name st.
Proof.
  intros Hne Hdot Hjs Hm Hf Hreg.
  pose proof (candidates_dot_slash_js name Hne Hdot Hjs) as Hc.
  split; [by apply normalize_dot_slash_js|]. split; [done|].
  assert (Hscan : scan st (candidates ("./" +:+ name +:+ ".js")) = scan st (candidates name)).
  { rewrite Hc. cbn [scan]. by rewrite Hm, inherited_dot_slash, Hf. }
  destruct (candidates_head name) as [rest Hrest].
  apply require_same_scan; [done| |]; rewrite Hscan, Hrest; cbn [scan].
  - destruct (modules st !! name); [done|]. destruct (inherited name); [done|].
    destruct Hreg as [[? [=]]|[f ->]]. done.
  - intros f. destruct (modules st !! name); [done|]. destruct (inherited name); [done|].
    destruct Hreg as [[? [=]]|[g ->]]. intros [= -> _]. done.
Qed.

Lemma require_normalized_forms_witness :
  normalize "./group/util.js" = "group/util" ∧
  candidates "./group/util.js" = "./group/util.js" :: candidates "group/util" ∧
  require 1 "./group/util.js" util_registry = require 1 "group/util" util_registry.
Proof.
  apply (require_normalized_forms 1 "group/util" util_registry).
  - discriminate.
  - vm_compute. reflexivity.
  - vm_compute. reflexivity.
  - vm_compute. reflexivity.
  - vm_compute. reflexivity.
  - right. vm_compute. by eexists.
Defined.

(** C4, as stated, fails: with the single unit 'group/util' registered,
    [require('group/util')] returns its exports, while [require('util')]
    and [require('../group/util.js')] throw "Module not found". *)
Lemma require_basename_counterexample :
  (require 1 "group/util" util_registry).1 = Returns (VRef 0) ∧
  (require 1 "./group/util.js" util_registry).1 = Returns (VRef 0) ∧
  (require 1 "util" util_registry).1
  = Throws (VError (Error
      "Module not found: util. Tried: util, util.js. Available modules: group/util")) ∧
  (require 1 "../group/util.js" util_registry).1
  = Throws (VError (Error
      "Module not found: ../group/util.js. Tried: ../group/util.js, ./group/util, ./group/util.js, util, util.js. Available modules: group/util")).
Proof. vm_compute. repeat split; reflexivity. Qed.

(** ** The model on sample inputs *)

(** Stacks as the host prints them. *)
Example detect_simple_file :
  detect_lines (stack_lines "Error
    at __detectModuleName__ (CommonJS:53:13)
    at __defineModule__ (CommonJS:216:39)
    at calculator:26:1") = Some "calculator".
Proof. vm_compute. reflexivity. Qed.

Example detect_virtual_path :
  detect_lines (stack_lines "Error
    at __detectModuleName__ (CommonJS:53:13)
    at __defineModule__ (CommonJS:216:39)
    at ai_tools/BaseConnector:26:1") = Some "ai_tools/BaseConnector".
Proof. vm_compute. reflexivity. Qed.

Example detect_function_frame :
  detect_lines (stack_lines "Error
    at helper (CommonJS:10:1)
    at main (Code:26:1)") = Some "Code".
Proof. vm_compute. reflexivity. Qed.

Example detect_nothing :
  detect_lines (stack_lines "Error
    at eval:1:2
    at anonymous:3:4") = None.
Proof. vm_compute. reflexivity. Qed.

Example current_deep_path :
  current_lines (stack_lines "Error
    at __getCurrentModule__ (CommonJS:305:13)
    at ai_chat/client_example:12:3") = Some "ai_chat/client_example".
Proof. vm_compute. reflexivity. Qed.

Example normalize_examples :
  normalize "./group/util.js" = "group/util" ∧
  normalize "group/util" = "group/util" ∧
  normalize "../group/util.js" = "./group/util" ∧
  normalize ".hidden" = "hidden".
Proof. vm_compute. repeat split; reflexivity. Qed.

(** A unit that requires [calculator] finds the function [add] in what it
    gets. *)
Example consumer_sees_calculator :
  let st := (__defineModule__ (requiring "calculator" "calc") (Some "consumer") ""
               calculator_registry).2 in
  ∃ st', require 2 "consumer" st = (Returns (VRef 0), st') ∧
         get_prop (heap st') 0 "calc" = VRef 4 ∧
         get_prop (heap st') 4 "add" = VFun "add" ∧
         loads "calculator" (logger st') = 1.
Proof. eexists. vm_compute. repeat split; reflexivity. Qed.

(** * Further properties of the registry *)

(** ** Depth of the calls *)

Lemma pending_le_size (st : registry) : pending st ≤ size (moduleFactories st).
Proof.
  unfold pending. rewrite <- (size_dom (moduleFactories st)).
  apply subseteq_size. intros k. rewrite elem_of_difference. tauto.
Qed.

(** X1. [require] returns or throws: its calls never nest deeper than the
    number of registered units, whatever the factories do. *)
Theorem require_never_hangs (fuel : nat) (moduleName : string) (st : registry) :
  size (moduleFactories st) < fuel →
  (require fuel moduleName st).1 ≠ OutOfFuel.
Proof.
  intros Hlt. apply require_terminates.
  eapply Nat.le_lt_trans; [apply pending_le_size|done].
Qed.

Lemma require_never_hangs_witness : (require 3 "A" cycle_registry).1 ≠ OutOfFuel.
Proof.
  apply (require_never_hangs 3 "A" cycle_registry). vm_compute. lia.
Defined.

(** ** What [require] leaves alone *)

(** X2. Whatever its outcome, a call of [require] leaves [moduleFactories]
    as it is, neither removes nor replaces a module record, adds records
    only under names that have a factory, and writes no warning. *)
Theorem require_keeps_registry (fuel : nat) (moduleName : string) (st : registry) :
  let st' := (require fuel moduleName st).2 in
  moduleFactories st' = moduleFactories st ∧
  (∀ k module, modules st !! k = Some module → modules st' !! k = Some module) ∧
  (∀ k, modules st !! k = None → is_Some (modules st' !! k) →
        is_Some (moduleFactories st !! k)) ∧
  console st' = console st.
Proof.
  destruct (require fuel moduleName st) as [o st'] eqn:Hreq. simpl.
  apply require_ext in Hreq as [[Hf Hm Hn _ Hc _] _].
  split; [done|]. split; [|done].
  intros k module Hk. by eapply lookup_weaken.
Qed.

Lemma require_current (fuel : nat) (moduleName : string) (st st' : registry) (v : value) :
  require fuel moduleName st = (Returns v, st') → currentModule st' = currentModule st.
Proof.
  destruct fuel as [|fuel]; [done|]. rewrite require_S. unfold require_body.
  destruct (scan st (candidates moduleName)) as [v0|found f|]; [by intros [= _ <-]| |done].
  destruct found as [|a found']; [done|].
  destruct (decide (String a found' ∈ loadingModules st)); [done|].
  unfold load. destruct (begin_load (String a found') st) as [[module exports] st1].
  destruct (run (require fuel) (f module exports) st1) as [[result|e|] st2]; [|done..].
  intros [= _ <-]. done.
Qed.

(** X3. A call of [require] that returns or throws leaves the loading set
    exactly as it found it; one that returns also leaves
    [globalThis.__currentModule] as it found it. *)
Theorem require_restores_context (fuel : nat) (moduleName : string) (st : registry) :
  (require fuel moduleName st).1 ≠ OutOfFuel →
  loadingModules (require fuel moduleName st).2 = loadingModules st ∧
  (∀ v, (require fuel moduleName st).1 = Returns v →
        currentModule (require fuel moduleName st).2 = currentModule st).
Proof.
  destruct (require fuel moduleName st) as [o st'] eqn:Hreq. simpl. intros Ho.
  split.
  - apply require_ext in Hreq as [_ Hl]. by apply Hl.
  - intros v ->. by eapply require_current.
Qed.

Lemma require_restores_context_witness :
  loadingModules (require 3 "A" cycle_registry).2 = loadingModules cycle_registry ∧
  (∀ v, (require 3 "A" cycle_registry).1 = Returns v →
        currentModule (require 3 "A" cycle_registry).2 = currentModule cycle_registry).
Proof.
  apply (require_restores_context 3 "A" cycle_registry). vm_compute. discriminate.
Defined.

(** A factory that throws leaves [globalThis.__currentModule] on its own
    module record: the assignment that restores it is not in the
    [finally] block. *)
Example failed_load_keeps_current :
  currentModule (require 1 "broken"
    (single "broken" (failing "half" (VNum 1) (VStr "boom")))).2 = VRef 1.
Proof. vm_compute. reflexivity. Qed.

(** ** The loading-set test *)

Lemma loading_recorded_empty : loading_recorded empty_registry.
Proof. intros k Hk. by apply elem_of_empty in Hk. Qed.

(** X4. In every registry that a sequence of calls reaches from the empty
    one, [require] behaves, nested calls included, exactly as it would
    without its test of the loading set. *)
Theorem loading_test_never_fires (cs : list call) (fuel : nat) (moduleName : string) :
  require fuel moduleName (process cs empty_registry)
  = require_unchecked fuel moduleName (process cs empty_registry).
Proof.
  apply circular_check_is_dead, process_loading_recorded, loading_recorded_empty.
Qed.

(** ** The output channels *)

Lemma register_silent (f : factory) (name : string) (st st' : registry) :
  silent st = silent st' →
  (register f name st).1 = (register f name st').1 ∧
  silent (register f name st).2 = silent (register f name st').2.
Proof.
  intros Hs. pose proof (silent_inv _ _ Hs) as (Hh & Hm & Hf & Hl & Hc & Hmk & Hfk).
  unfold register. rewrite Hf.
  destruct (moduleFactories st' !! name), (inherited name); (split; [done|]);
    apply silent_intro; simpl; congruence.
Qed.

Lemma define_silent (f : factory) (explicitName : option string) (stack : string)
    (st st' : registry) :
  silent st = silent st' →
  (__defineModule__ f explicitName stack st).1
  = (__defineModule__ f explicitName stack st').1 ∧
  silent (__defineModule__ f explicitName stack st).2
  = silent (__defineModule__ f explicitName stack st').2.
Proof.
  intros Hs. pose proof (silent_inv _ _ Hs) as (Hh & Hm & Hf & Hl & Hc & Hmk & Hfk).
  assert (Hlog : ∀ l1 l2, silent (log l2 (log l1 st)) = silent (log l2 (log l1 st'))).
  { intros l1 l2. apply silent_intro; simpl; congruence. }
  unfold __defineModule__, __detectModuleName__.
  destruct explicitName as [[|a s]|]; [|by apply register_silent|];
    destruct (detect_lines (stack_lines stack)); simpl;
    try (by apply register_silent); by split.
Qed.

Lemma current_silent (stack : string) (st st' : registry) :
  silent st = silent st' →
  (__getCurrentModule__ stack st).1 = (__getCurrentModule__ stack st').1 ∧
  silent (__getCurrentModule__ stack st).2 = silent (__getCurrentModule__ stack st').2.
Proof.
  intros Hs. pose proof (silent_inv _ _ Hs) as (Hh & Hm & Hf & Hl & Hc & Hmk & Hfk).
  rewrite !current_state. split; [|done].
  unfold __getCurrentModule__. rewrite Hm.
  destruct (current_lines (stack_lines stack)) as [name|]; [|done].
  destruct (modules st' !! name); [done|]. by destruct (inherited name).
Qed.

Lemma do_call_silent (c : call) (st st' : registry) :
  silent st = silent st' →
  (do_call c st).1 = (do_call c st').1 ∧ silent (do_call c st).2 = silent (do_call c st').2.
Proof.
  destruct c as [f explicitName stack|fuel moduleName|stack]; simpl.
  - apply define_silent.
  - apply require_silent.
  - apply current_silent.
Qed.

(** X5. What has been written to [Logger.log] and [console.warn] has no
    effect on the registry: two registries that differ in these two
    channels only give every call the same outcome, and still differ in
    the two channels only after any sequence of calls. *)
Theorem output_channels_are_inert (cs : list call) (c : call) (st st' : registry) :
  silent st = silent st' →
  silent (process cs st) = silent (process cs st') ∧
  (do_call c (process cs st)).1 = (do_call c (process cs st')).1.
Proof.
  intros Hs.
  assert (Hp : silent (process cs st) = silent (process cs st')).
  { revert st st' Hs. induction cs as [|c0 cs IH]; intros st st' Hs; [done|].
    simpl. apply IH. by apply do_call_silent. }
  split; [done|]. by apply do_call_silent.
Qed.

Lemma output_channels_are_inert_witness :
  silent (process [Need 2 "A"] cycle_registry)
  = silent (process [Need 2 "A"] (silent cycle_registry)) ∧
  (do_call (Need 1 "B") (process [Need 2 "A"] cycle_registry)).1
  = (do_call (Need 1 "B") (process [Need 2 "A"] (silent cycle_registry))).1.
Proof.
  apply (output_channels_are_inert [Need 2 "A"] (Need 1 "B") cycle_registry
           (silent cycle_registry)).
  vm_compute. reflexivity.
Defined.

(** ** Factory calls *)

(** X6. Whatever calls are made from the empty registry, whatever their
    outcomes, no factory is called twice, and a name whose factory was
    called has its module record. *)
Theorem no_factory_is_called_twice (cs : list call) (k : string) :
  loads k (logger (process cs empty_registry)) ≤ 1 ∧
  (modules (process cs empty_registry) !! k = None →
   loads k (logger (process cs empty_registry)) = 0).
Proof. apply process_loads_consistent. Qed.

(** ** Registration *)

Lemma detect_lines_nonempty (ls : list string) (name : string) :
  detect_lines ls = Some name → usable name = true.
Proof.
  intros Hd. destruct (detect_lines_some _ _ Hd) as (line & p & _ & _ & Hp & Hm).
  by eapply detect_pattern_usable.
Qed.

Lemma resolved_name_nonempty (explicitName : option string) (stack name : string) :
  resolved_name explicitName stack = Some name → name ≠ "".
Proof.
  unfold resolved_name.
  assert (Hd : detect_lines (stack_lines stack) = Some name → name ≠ "").
  { intros Hd. by apply detect_lines_nonempty, usable_spec in Hd as [? _]. }
  destruct explicitName as [[|a s]|]; [done| |done]. by intros [= <-].
Qed.

Lemma define_fresh (f : factory) (explicitName : option string) (stack name : string)
    (st : registry) :
  resolved_name explicitName stack = Some name →
  moduleFactories st !! name = None →
  inherited name = None →
  ∃ logged,
    __defineModule__ f explicitName stack st
    = (Returns VUndef,
       Registry (heap st) (modules st) (<[name := f]> (moduleFactories st))
                (loadingModules st) (currentModule st)
                (logger st ++ logged ++ [LogRegistered name]) (console st)
                (moduleKeys st) (add_key name (factoryKeys st))) ∧
    ∀ k, loads k logged = 0.
Proof.
  intros Hname Hf Hi. unfold __defineModule__, __detectModuleName__, resolved_name in *.
  assert (Hdetect : detect_lines (stack_lines stack) = Some name →
    ∃ logged,
      register f name (log (LogDetected name) (log LogDetecting st))
      = (Returns VUndef,
         Registry (heap st) (modules st) (<[name := f]> (moduleFactories st))
                  (loadingModules st) (currentModule st)
                  (logger st ++ logged ++ [LogRegistered name]) (console st)
                  (moduleKeys st) (add_key name (factoryKeys st))) ∧
      ∀ k, loads k logged = 0).
  { intros _. exists [LogDetecting; LogDetected name]. unfold register. simpl.
    rewrite Hf, Hi. split; [|done]. unfold log, set_factory. simpl.
    by rewrite <- !app_assoc. }
  destruct explicitName as [[|a s]|].
  - rewrite Hname. by apply Hdetect.
  - injection Hname as <-. exists []. unfold register. rewrite Hf, Hi. done.
  - rewrite Hname. by apply Hdetect.
Qed.

(** X7. Registering under a name that has no factory yet (a name that is
    no member of [Object.prototype]) stores the factory, as the last own
    property of [moduleFactories], and does nothing else: the factory is
    not called, and the heap, the module records and the loading set are
    untouched. If the name has no module record, the loop of the next
    [require] for the name stops at this factory. *)
Theorem defineModule_registers_lazily (f : factory) (explicitName : option string)
    (stack name : string) (st : registry) :
  resolved_name explicitName stack = Some name →
  moduleFactories st !! name = None →
  inherited name = None →
  ∃ st',
    __defineModule__ f explicitName stack st = (Returns VUndef, st') ∧
    moduleFactories st' = <[name := f]> (moduleFactories st) ∧
    factoryKeys st' = add_key name (factoryKeys st) ∧
    heap st' = heap st ∧ modules st' = modules st ∧ moduleKeys st' = moduleKeys st ∧
    loadingModules st' = loadingModules st ∧ console st' = console st ∧
    (∀ k, loads k (logger st') = loads k (logger st)) ∧
    (modules st !! name = None → scan st' (candidates name) = Selected name f).
Proof.
  intros Hname Hf Hi.
  destruct (define_fresh f explicitName stack name st Hname Hf Hi) as (logged & Hdef & Hl).
  eexists. split; [exact Hdef|].
  split; [done|]. split; [done|]. split; [done|]. split; [done|]. split; [done|].
  split; [done|]. split; [done|]. split.
  - intros k. cbn [logger]. rewrite !loads_app, Hl, loads_other by done. lia.
  - intros Hm. apply scan_registered; [apply lookup_insert_eq|done..].
Qed.

Lemma defineModule_registers_lazily_witness :
  ∃ st',
    __defineModule__ calculator None "Error
    at __detectModuleName__ (CommonJS:53:13)
    at __defineModule__ (CommonJS:216:39)
    at calculator:26:1" initial_registry = (Returns VUndef, st') ∧
    moduleFactories st' = <["calculator" := calculator]> (moduleFactories initial_registry) ∧
    factoryKeys st' = add_key "calculator" (factoryKeys initial_registry) ∧
    heap st' = heap initial_registry ∧ modules st' = modules initial_registry ∧
    moduleKeys st' = moduleKeys initial_registry ∧
    loadingModules st' = loadingModules initial_registry ∧
    console st' = console initial_registry ∧
    (∀ k, loads k (logger st') = loads k (logger initial_registry)) ∧
    (modules initial_registry !! "calculator" = None →
     scan st' (candidates "calculator") = Selected "calculator" calculator).
Proof.
  apply (defineModule_registers_lazily calculator None).
  - vm_compute. reflexivity.
  - vm_compute. reflexivity.
  - vm_compute. reflexivity.
Defined.

(** X8. Without a usable explicit name (none, or the empty string) and
    without a stack line that yields a name, [__defineModule__] throws the
    detection error and registers nothing. *)
Theorem defineModule_detection_failure (f : factory) (explicitName : option string)
    (stack : string) (st : registry) :
  explicitName = None ∨ explicitName = Some "" →
  detect_lines (stack_lines stack) = None →
  ∃ st',
    __defineModule__ f explicitName stack st = (Throws (detect_failure stack), st') ∧
    silent st' = silent st ∧ console st' = console st.
Proof.
  intros Hexp Hd. unfold __defineModule__, __detectModuleName__. rewrite Hd.
  destruct Hexp as [-> | ->]; eexists; (split; [reflexivity|done]).
Qed.

Lemma defineModule_detection_failure_witness :
  ∃ st',
    __defineModule__ calculator (Some "") "Error
    at eval:1:2" initial_registry = (Throws (detect_failure "Error
    at eval:1:2"), st') ∧
    silent st' = silent initial_registry ∧ console st' = console initial_registry.
Proof.
  apply (defineModule_detection_failure calculator (Some "")).
  - by right.
  - vm_compute. reflexivity.
Defined.

(** X9. A registration that relies on the detection never creates an
    entry under the empty name, [eval], [anonymous], [CommonJS] or a name
    that starts with two underscores. *)
Theorem detected_registration_is_not_reserved (f : factory) (stack k : string)
    (st : registry) :
  moduleFactories st !! k = None →
  is_Some (moduleFactories (__defineModule__ f None stack st).2 !! k) →
  k ≠ "" ∧ k ≠ "eval" ∧ k ≠ "anonymous" ∧ k ≠ "CommonJS" ∧ Str.startsWith k "__" = false.
Proof.
  unfold __defineModule__, __detectModuleName__.
  destruct (detect_lines (stack_lines stack)) as [name|] eqn:Hd; simpl.
  - unfold register. cbn [moduleFactories log]. intros Hk Hk'.
    assert (k = name) as ->.
    { destruct (moduleFactories st !! name) eqn:Hn; [|destruct (inherited name)];
        cbn in Hk'.
      - rewrite Hk in Hk'. by destruct Hk'.
      - rewrite Hk in Hk'. by destruct Hk'.
      - destruct (decide (name = k)) as [->|Hne]; [done|].
        rewrite lookup_insert_ne, Hk in Hk' by done. by destruct Hk'. }
    by apply usable_spec, (detect_lines_nonempty (stack_lines stack)).
  - intros Hk Hk'. rewrite Hk in Hk'. by destruct Hk'.
Qed.

Lemma detected_registration_is_not_reserved_witness :
  "calculator" ≠ "" ∧ "calculator" ≠ "eval" ∧ "calculator" ≠ "anonymous" ∧
  "calculator" ≠ "CommonJS" ∧ Str.startsWith "calculator" "__" = false.
Proof.
  apply (detected_registration_is_not_reserved calculator "Error
    at __defineModule__ (CommonJS:216:39)
    at calculator:26:1" "calculator" initial_registry).
  - vm_compute. reflexivity.
  - vm_compute. by eexists.
Defined.

(** ** The empty name *)

Lemma current_lines_usable (ls : list string) (name : string) :
  current_lines ls = Some name → usable name = true.
Proof.
  induction ls as [|l ls IH]; cbn [current_lines]; [done|].
  destruct (first_of current_patterns l) as [name'|] eqn:Hfirst; [|done].
  intros [= <-]. destruct (first_of_some _ _ _ Hfirst) as (p & Hp & Hm).
  unfold current_patterns in Hp. rewrite !elem_of_cons, elem_of_nil in Hp.
  destruct Hp as [->|[->|[->|[]]]];
    eauto using try_virtual_path_usable, try_group1_usable.
Qed.

Lemma register_unnamed (f : factory) (name : string) (st : registry) :
  name ≠ "" →
  moduleFactories (register f name st).2 !! "" = moduleFactories st !! "" ∧
  modules (register f name st).2 = modules st.
Proof.
  intros Hne. unfold register.
  destruct (moduleFactories st !! name), (inherited name); simpl; try done.
  by rewrite lookup_insert_ne.
Qed.

Lemma define_unnamed (f : factory) (explicitName : option string) (stack : string)
    (st : registry) :
  moduleFactories (__defineModule__ f explicitName stack st).2 !! ""
  = moduleFactories st !! "" ∧
  modules (__defineModule__ f explicitName stack st).2 = modules st.
Proof.
  unfold __defineModule__, __detectModuleName__.
  destruct explicitName as [[|a s]|]; [|by apply register_unnamed|];
    destruct (detect_lines (stack_lines stack)) as [name|] eqn:Hd; simpl; try done;
    apply (register_unnamed f name (log (LogDetected name) (log LogDetecting st)));
    by apply detect_lines_nonempty, usable_spec in Hd as [? _].
Qed.

Lemma current_unnamed (stack : string) (st : registry) :
  moduleFactories (__getCurrentModule__ stack st).2 = moduleFactories st ∧
  modules (__getCurrentModule__ stack st).2 !! "" = modules st !! "".
Proof. by rewrite current_state. Qed.

(** X10. Whatever calls are made from the empty registry, nothing is ever
    registered under the empty name and no module record is ever created
    under it: an empty explicit name falls to the detection, which yields
    no empty name, and [require] selects no empty name. *)
Theorem empty_name_is_never_used (cs : list call) :
  moduleFactories (process cs empty_registry) !! "" = None ∧
  modules (process cs empty_registry) !! "" = None.
Proof.
  assert (Hinv : ∀ st, moduleFactories st !! "" = None ∧ modules st !! "" = None →
    moduleFactories (process cs st) !! "" = None ∧ modules (process cs st) !! "" = None).
  { induction cs as [|c cs IH]; intros st [Hf Hm]; [done|].
    simpl. apply IH. destruct c as [f explicitName stack|fuel moduleName|stack]; simpl.
    - destruct (define_unnamed f explicitName stack st) as [-> ->]. done.
    - destruct (require fuel moduleName st) as [o st'] eqn:Hreq. simpl.
      apply require_ext in Hreq as [He _]. rewrite (ext_factories _ _ He).
      split; [done|]. destruct (modules st' !! "") eqn:Hm'; [|done].
      destruct (ext_new _ _ He "" Hm) as [g Hg]; [by eexists|congruence].
    - destruct (current_unnamed stack st) as [-> ->]. done. }
  by apply Hinv.
Qed.

(** ** [getModuleInfo] *)

Lemma define_factories_grow (f : factory) (explicitName : option string) (stack : string)
    (st : registry) (k : string) :
  is_Some (moduleFactories st !! k) →
  is_Some (moduleFactories (__defineModule__ f explicitName stack st).2 !! k).
Proof.
  assert (Hreg : ∀ name st0, moduleFactories st0 = moduleFactories st →
    is_Some (moduleFactories st !! k) →
    is_Some (moduleFactories (register f name st0).2 !! k)).
  { intros name st0 Hst Hk. unfold register.
    destruct (moduleFactories st0 !! name) eqn:Hn, (inherited name); simpl;
      try (by rewrite Hst).
    rewrite Hst. destruct (decide (name = k)) as [->|Hne].
    - rewrite lookup_insert_eq. by eexists.
    - by rewrite lookup_insert_ne. }
  intros Hk. unfold __defineModule__, __detectModuleName__.
  destruct explicitName as [[|a s]|]; [|by apply Hreg|];
    destruct (detect_lines (stack_lines stack)); simpl; try done; by apply Hreg.
Qed.

Lemma process_loaded_registered (cs : list call) (st : registry) :
  forallb registry_call cs = true →
  (∀ k, is_Some (modules st !! k) → is_Some (moduleFactories st !! k)) →
  ∀ k, is_Some (modules (process cs st) !! k) →
       is_Some (moduleFactories (process cs st) !! k).
Proof.
  revert st. induction cs as [|c cs IH]; intros st Hcs Hinv; [done|].
  cbn [forallb] in Hcs. apply andb_true_iff in Hcs as [Hc Hcs].
  simpl. apply IH; [done|].
  destruct c as [f explicitName stack|fuel moduleName|stack]; simpl; [| |done].
  - intros k Hk. destruct (define_unnamed f explicitName stack st) as [_ Hm].
    rewrite Hm in Hk. by apply define_factories_grow, Hinv.
  - destruct (require fuel moduleName st) as [o st'] eqn:Hreq. simpl.
    apply require_ext in Hreq as [He _]. intros k Hk.
    rewrite (ext_factories _ _ He).
    destruct (modules st !! k) eqn:Hmk; [apply Hinv; by rewrite Hmk|].
    by apply (ext_new _ _ He).
Qed.

Lemma process_loading (cs : list call) (st : registry) :
  completes cs st → loadingModules (process cs st) = loadingModules st.
Proof.
  revert st. induction cs as [|c cs IH]; intros st Hcs; [done|].
  destruct Hcs as [Hc Hcs]. simpl. rewrite IH by done.
  destruct c as [f explicitName stack|fuel moduleName|stack]; simpl in *.
  - apply define_loading.
  - destruct (require fuel moduleName st) as [o st'] eqn:Hreq.
    apply require_ext in Hreq as [_ Hl]. by apply Hl.
  - apply current_loading.
Qed.

(** The creation order lists the own properties, in every registry a
    process reaches. *)
Lemma add_key_elem (k x : string) (keys : list string) :
  x ∈ add_key k keys ↔ x = k ∨ x ∈ keys.
Proof.
  unfold add_key. destruct (decide (k ∈ keys)) as [Hin|Hnotin].
  - split; [by right|]. by intros [->|?].
  - rewrite elem_of_app, list_elem_of_singleton. tauto.
Qed.

Lemma keyed_empty : keyed empty_registry.
Proof.
  split; intros k; cbn; rewrite elem_of_nil, lookup_empty;
    (split; [done|by intros [? ?]]).
Qed.

Lemma keyed_same (st st' : registry) :
  modules st' = modules st → moduleFactories st' = moduleFactories st →
  moduleKeys st' = moduleKeys st → factoryKeys st' = factoryKeys st →
  keyed st → keyed st'.
Proof. intros Hm Hf Hmk Hfk [H1 H2]. split; intros k; by rewrite ?Hm, ?Hf, ?Hmk, ?Hfk. Qed.

Lemma keyed_begin_load (found : string) (st : registry) :
  keyed st → keyed (begin_load found st).2.
Proof.
  intros [H1 H2]. split; intros k; simpl; [|done].
  rewrite add_key_elem, H1. destruct (decide (found = k)) as [->|Hne].
  - rewrite lookup_insert_eq. split; [by eexists|by left].
  - rewrite lookup_insert_ne by done. split; [by intros [->|?]|by right].
Qed.

Lemma keyed_register (f : factory) (name : string) (st : registry) :
  keyed st → keyed (register f name st).2.
Proof.
  intros [H1 H2]. unfold register.
  destruct (moduleFactories st !! name), (inherited name); try done.
  split; intros k; simpl; [done|].
  rewrite add_key_elem, H2. destruct (decide (name = k)) as [->|Hne].
  - rewrite lookup_insert_eq. split; [by eexists|by left].
  - rewrite lookup_insert_ne by done. split; [by intros [->|?]|by right].
Qed.

Section RunKeyed.
Variable req : string → registry → outcome * registry.
Hypothesis req_keyed : ∀ name st, keyed st → keyed (req name st).2.

Lemma run_keyed (p : fac) (st : registry) : keyed st → keyed (run req p st).2.
Proof.
  revert st. induction p as [v|e|k IH|l key v k IH|l key k IH|name k IH];
    intros st Hk; simpl; try done.
  - apply IH. by apply (keyed_same st).
  - apply IH. by apply (keyed_same st).
  - by apply IH.
  - pose proof (req_keyed name st Hk) as Hk1.
    destruct (req name st) as [[v|e|] st1]; [by apply IH|by apply IH|done].
Qed.
End RunKeyed.

Lemma load_keyed (req : string → registry → outcome * registry)
    (found : string) (f : factory) (st : registry) :
  (∀ name st, keyed st → keyed (req name st).2) →
  keyed st → keyed (load req found f st).2.
Proof.
  intros Hreq Hk. unfold load.
  pose proof (keyed_begin_load found st Hk) as Hk1.
  destruct (begin_load found st) as [[module exports] st1]. simpl in Hk1.
  pose proof (run_keyed req Hreq (f module exports) st1 Hk1) as Hk2.
  destruct (run req (f module exports) st1) as [[result|e|] st2]; simpl in *; [| |done].
  - apply (keyed_same st2); try done; by destruct result.
  - by apply (keyed_same st2).
Qed.

Lemma require_keyed (fuel : nat) (moduleName : string) (st : registry) :
  keyed st → keyed (require fuel moduleName st).2.
Proof.
  revert moduleName st. induction fuel as [|fuel IH]; intros moduleName st Hk; [done|].
  rewrite require_S. unfold require_body.
  destruct (scan st (candidates moduleName)) as [v|found f|]; [done| |done].
  destruct found as [|a found']; [done|].
  destruct (decide (String a found' ∈ loadingModules st)); [done|].
  by apply load_keyed.
Qed.

Lemma define_keyed (f : factory) (explicitName : option string) (stack : string)
    (st : registry) :
  keyed st → keyed (__defineModule__ f explicitName stack st).2.
Proof.
  intros Hk. unfold __defineModule__, __detectModuleName__.
  destruct explicitName as [[|a s]|]; [|by apply keyed_register|];
    destruct (detect_lines (stack_lines stack)); simpl;
    try (apply keyed_register); by apply (keyed_same st).
Qed.

Lemma process_keyed (cs : list call) (st : registry) : keyed st → keyed (process cs st).
Proof.
  revert st. induction cs as [|c cs IH]; intros st Hk; [done|].
  simpl. apply IH. destruct c as [f explicitName stack|fuel moduleName|stack]; simpl.
  - by apply define_keyed.
  - by apply require_keyed.
  - by rewrite current_state.
Qed.

(** X11. After any sequence of registrations and calls of [require] that
    all returned or threw, [getModuleInfo] reports no name as loading, and
    every name it reports as loaded is among those it reports as
    registered. *)
Theorem getModuleInfo_between_calls (cs : list call) :
  forallb registry_call cs = true →
  completes cs empty_registry →
  let info := getModuleInfo (process cs empty_registry) in
  ModuleInfo.loading info = [] ∧
  ∀ k, k ∈ ModuleInfo.loaded info → k ∈ ModuleInfo.registered info.
Proof.
  intros Hcs Hdone. simpl. split.
  - rewrite process_loading by done. apply elements_empty.
  - intros k Hk. destruct (process_keyed cs empty_registry keyed_empty) as [Hmk Hfk].
    apply object_keys_elem, Hfk. apply object_keys_elem, Hmk in Hk.
    revert k Hk. apply process_loaded_registered; [done|].
    intros k [x Hx]. cbn in Hx. by rewrite lookup_empty in Hx.
Qed.

Lemma getModuleInfo_between_calls_witness :
  let info := getModuleInfo (process
    [Define calculator (Some "calculator") ""; Need 1 "calculator"; Need 1 "missing"]
    empty_registry) in
  ModuleInfo.loading info = [] ∧
  ∀ k, k ∈ ModuleInfo.loaded info → k ∈ ModuleInfo.registered info.
Proof.
  apply (getModuleInfo_between_calls
    [Define calculator (Some "calculator") ""; Need 1 "calculator"; Need 1 "missing"]).
  - reflexivity.
  - vm_compute. repeat split; discriminate.
Defined.

(** ** Extension and directory of the requested name *)

Lemma scan_cons_unused (st : registry) (c : string) (cs : list string) :
  unused st c → scan st (c :: cs) = scan st cs.
Proof. intros (Hm & Hf & Hi). cbn [scan]. by rewrite Hm, Hi, Hf. Qed.

Lemma scan_cons_in_use (st : registry) (c : string) (cs cs' : list string) :
  in_use st c →
  scan st (c :: cs) = scan st (c :: cs') ∧ scan st (c :: cs) ≠ NoMatch ∧
  ∀ f, scan st (c :: cs) = Selected "" f → c = "".
Proof.
  intros Huse. cbn [scan]. destruct (modules st !! c) as [module|] eqn:Hm; [done|].
  destruct (inherited c) as [member|] eqn:Hi; [done|].
  destruct Huse as [[? Hx]|[[g Hg]|[? Hx]]]; [congruence| |congruence]. rewrite Hg.
  split; [done|]. split; [done|]. by intros f [= -> _].
Qed.

Lemma string_app_neq (s p : string) : p ≠ "" → String.eqb s (s +:+ p) = false.
Proof.
  intros Hp. apply String.eqb_neq. intros Heq.
  apply (f_equal String.length) in Heq. rewrite length_append in Heq.
  destruct p; [done|]. simpl in Heq. lia.
Qed.

Lemma normalize_js (name : string) :
  name ≠ "" → Str.startsWith name "." = false → normalize (name +:+ ".js") = name.
Proof.
  intros Hne Hdot. unfold normalize, Patterns.lead_dot, Patterns.lead_dotdot.
  cbn [Patterns.seq].
  rewrite (remove_lead_dot_none _ (name +:+ ".js")) by by apply startsWith_app_dot.
  rewrite (remove_lead_dot_none _ (name +:+ ".js")) by by apply startsWith_app_dot.
  rewrite endsWith_app. apply (drop_last_app name ".js").
Qed.

Lemma candidates_js (name : string) :
  name ≠ "" → Str.startsWith name "." = false → Str.endsWith name ".js" = false →
  ∃ rest,
    candidates name = name :: (name +:+ ".js") :: rest ∧
    candidates (name +:+ ".js") = (name +:+ ".js") :: name :: (name +:+ ".js") :: rest.
Proof.
  intros Hne Hdot Hjs. unfold candidates.
  rewrite normalize_js, normalize_plain by done.
  rewrite String.eqb_refl, Hjs, string_app_neq by done.
  eexists. split; reflexivity.
Qed.

(** X12. For a name that is not empty, has no leading dot and no '.js'
    extension: when only one of the keys [name] and [name.js] is in use
    ([modules[key]] or [moduleFactories[key]] is truthy: a module record,
    a factory, or a member of [Object.prototype] of that name),
    [require(name)] and [require(name + '.js')] have the same result. *)
Theorem require_extension_insensitive (fuel : nat) (name : string) (st : registry) :
  name ≠ "" →
  Str.startsWith name "." = false →
  Str.endsWith name ".js" = false →
  (unused st name ∧ in_use st (name +:+ ".js")) ∨
  (in_use st name ∧ unused st (name +:+ ".js")) →
  require fuel (name +:+ ".js") st = require fuel name st.
Proof.
  intros Hne Hdot Hjs Hkeys.
  destruct (candidates_js name Hne Hdot Hjs) as (rest & Hc & Hcjs).
  assert (Hnejs : name +:+ ".js" ≠ "") by by destruct name.
  apply require_same_scan; rewrite Hcjs; rewrite ?Hc.
  - destruct Hkeys as [[Hfree Huse]|[Huse Hfree]].
    + rewrite (scan_cons_unused st name) by done.
      by apply scan_cons_in_use.
    + rewrite (scan_cons_unused st (name +:+ ".js")) by done.
      by apply scan_cons_in_use.
  - destruct Hkeys as [[Hfree Huse]|[Huse Hfree]].
    + by apply scan_cons_in_use.
    + rewrite (scan_cons_unused st (name +:+ ".js")) by done.
      by eapply (scan_cons_in_use st name _ []).
  - intros f Hsel. destruct Hkeys as [[Hfree Huse]|[Huse Hfree]].
    + by apply (scan_cons_in_use st _ _ [] Huse) in Hsel.
    + rewrite (scan_cons_unused st (name +:+ ".js")) in Hsel by done.
      by apply (scan_cons_in_use st _ _ [] Huse) in Hsel.
Qed.

Lemma require_extension_insensitive_witness :
  require 1 ("calculator" +:+ ".js") calculator_registry
  = require 1 "calculator" calculator_registry.
Proof.
  apply (require_extension_insensitive 1 "calculator" calculator_registry).
  - discriminate.
  - vm_compute. reflexivity.
  - vm_compute. reflexivity.
  - right. split; [right; left; vm_compute; by eexists|].
    repeat split; vm_compute; reflexivity.
Defined.

Lemma chars_app (s p : string) : Str.chars (s +:+ p) = Str.chars s ++ Str.chars p.
Proof.
  induction s as [|a s IH]; [done|]. rewrite append_cons. unfold Str.chars in *.
  cbn [String.list_ascii_of_string]. by rewrite IH.
Qed.

Lemma split_go_no_sep (c : ascii) (cur b : list ascii) :
  forallb (λ a, negb (Ascii.eqb a c)) b = true →
  Str.split_go c cur b = [Str.of_chars (rev cur ++ b)].
Proof.
  revert cur. induction b as [|a b IH]; intros cur Hb; cbn [Str.split_go].
  - by rewrite app_nil_r.
  - cbn [forallb] in Hb. apply andb_true_iff in Hb as [Ha Hb].
    apply negb_true_iff in Ha. rewrite Ha, IH by done.
    cbn [rev]. by rewrite <- app_assoc.
Qed.

Lemma split_go_nonempty (c : ascii) (cur s : list ascii) : Str.split_go c cur s ≠ [].
Proof.
  revert cur. induction s as [|a s IH]; intros cur; cbn [Str.split_go]; [done|].
  destruct (Ascii.eqb a c); [done|apply IH].
Qed.

Lemma last_split_go (c : ascii) (cur d b : list ascii) :
  forallb (λ a, negb (Ascii.eqb a c)) b = true →
  List.last (Str.split_go c cur (d ++ c :: b)) "" = Str.of_chars b.
Proof.
  intros Hb. revert cur. induction d as [|a d IH]; intros cur; cbn [app Str.split_go].
  - rewrite Ascii.eqb_refl, split_go_no_sep by done. done.
  - destruct (Ascii.eqb a c).
    + specialize (IH []).
      destruct (Str.split_go c [] (d ++ c :: b)) as [|x l] eqn:Hsplit; [|done].
      by apply split_go_nonempty in Hsplit.
    + apply IH.
Qed.

Lemma pop_split_dir (dir base : string) :
  no_slash base = true →
  Str.pop (Str.split Patterns.slash (dir +:+ "/" +:+ base)) = base.
Proof.
  intros Hb. unfold Str.pop, Str.split. rewrite chars_app.
  change (Str.chars ("/" +:+ base)) with (Patterns.slash :: Str.chars base).
  rewrite last_split_go by done. apply chars_of_chars.
Qed.

Lemma pop_split_plain (base : string) :
  no_slash base = true → Str.pop (Str.split Patterns.slash base) = base.
Proof.
  intros Hb. unfold Str.pop, Str.split. rewrite split_go_no_sep by done.
  apply chars_of_chars.
Qed.

Lemma dir_neq_base (dir base : string) : String.eqb base (dir +:+ "/" +:+ base) = false.
Proof.
  apply String.eqb_neq. intros Heq. apply (f_equal String.length) in Heq.
  rewrite !length_append in Heq. simpl in Heq. lia.
Qed.

Lemma candidates_dir (dir base : string) :
  base ≠ "" → no_slash base = true →
  Str.startsWith (dir +:+ "/" +:+ base) "." = false →
  Str.endsWith (dir +:+ "/" +:+ base) ".js" = false →
  Str.endsWith base ".js" = false →
  candidates (dir +:+ "/" +:+ base)
  = [dir +:+ "/" +:+ base; (dir +:+ "/" +:+ base) +:+ ".js"; base; base +:+ ".js"].
Proof.
  intros Hne Hslash Hdot Hjs Hbjs. unfold candidates.
  rewrite normalize_plain by done. rewrite pop_split_dir by done.
  rewrite String.eqb_refl, Hjs, dir_neq_base, Hbjs.
  apply String.eqb_neq in Hne. by rewrite Hne.
Qed.

Lemma candidates_plain (base : string) :
  no_slash base = true →
  Str.startsWith base "." = false →
  Str.endsWith base ".js" = false →
  candidates base = [base; base +:+ ".js"].
Proof.
  intros Hslash Hdot Hjs. unfold candidates.
  rewrite normalize_plain by done. rewrite pop_split_plain by done.
  by rewrite String.eqb_refl, Hjs, andb_false_r.
Qed.

(** X13. The directory of the requested name is dropped when nothing is
    in use under the full path: for [dir/base] without leading dot and
    without '.js' extension, with neither [dir/base] nor [dir/base.js] in
    use and [base] or [base.js] in use, [require(dir/base)] has the result
    of [require(base)]. *)
Theorem require_basename_fallback (fuel : nat) (dir base : string) (st : registry) :
  base ≠ "" → no_slash base = true →
  Str.startsWith base "." = false →
  Str.endsWith base ".js" = false →
  Str.startsWith (dir +:+ "/" +:+ base) "." = false →
  Str.endsWith (dir +:+ "/" +:+ base) ".js" = false →
  unused st (dir +:+ "/" +:+ base) →
  unused st ((dir +:+ "/" +:+ base) +:+ ".js") →
  in_use st base ∨ in_use st (base +:+ ".js") →
  require fuel (dir +:+ "/" +:+ base) st = require fuel base st.
Proof.
  intros Hne Hslash Hbdot Hbjs Hdot Hjs Hfree Hfreejs Huse.
  pose proof (candidates_dir dir base Hne Hslash Hdot Hjs Hbjs) as Hc.
  pose proof (candidates_plain base Hslash Hbdot Hbjs) as Hp.
  assert (Hscan : scan st (candidates (dir +:+ "/" +:+ base)) = scan st (candidates base)).
  { rewrite Hc, Hp. rewrite (scan_cons_unused st (dir +:+ "/" +:+ base)) by done.
    by rewrite (scan_cons_unused st ((dir +:+ "/" +:+ base) +:+ ".js")). }
  assert (Hfound : scan st (candidates base) ≠ NoMatch ∧
                   ∀ f, scan st (candidates base) ≠ Selected "" f).
  { rewrite Hp. split.
    - intros Hnone. pose proof (proj1 (scan_no_match _ _) Hnone) as Hall.
      destruct Huse as [Huse|Huse];
        [destruct (Hall base) as (Hm & Hf & Hi)
        |destruct (Hall (base +:+ ".js")) as (Hm & Hf & Hi)];
        try (rewrite !elem_of_cons; auto);
        destruct Huse as [[? Hx]|[[? Hx]|[? Hx]]]; congruence.
    - intros f Hsel. apply scan_selected in Hsel as (Hin & _).
      rewrite !elem_of_cons, elem_of_nil in Hin.
      destruct Hin as [Hin|[Hin|[]]]; [done|by destruct base]. }
  apply require_same_scan; rewrite ?Hscan; by destruct Hfound.
Qed.

Lemma require_basename_fallback_witness :
  require 1 ("group" +:+ "/" +:+ "util") (single "util" (filling "name" (VStr "util")))
  = require 1 "util" (single "util" (filling "name" (VStr "util"))).
Proof.
  apply (require_basename_fallback 1 "group" "util").
  - discriminate.
  - reflexivity.
  - reflexivity.
  - reflexivity.
  - reflexivity.
  - reflexivity.
  - repeat split; vm_compute; reflexivity.
  - repeat split; vm_compute; reflexivity.
  - left. right. left. vm_compute. by eexists.
Defined.

(** ** Not-found diagnostics *)

(** [Object.keys] lists array indices first, in ascending order, then the
    other names in the order of their registration. *)
Example registered_order :
  registered (process [Define calculator (Some "b") ""; Define calculator (Some "10") "";
                       Define calculator (Some "a") ""; Define calculator (Some "2") "";
                       Define calculator (Some "b") ""; Define calculator (Some "01") ""]
                      empty_registry)
  = ["2"; "10"; "b"; "a"; "01"].
Proof. vm_compute. reflexivity. Qed.

(** X16. In every registry that a sequence of calls reaches from the
    empty one: when [modules[c]] and [moduleFactories[c]] are falsy for
    every candidate [c] of the requested name (no module record, no
    factory, and no member of [Object.prototype] of that name), [require]
    throws an error whose message starts with "Module not found: ", is
    built from the requested name, the candidates in the order they were
    tried and [Object.keys(moduleFactories)], and so contains the requested
    name, each candidate, and each name that has a factory at the time of
    the call; the registry is left as it was. *)
Theorem require_not_found_diagnostics (cs : list call) (fuel : nat) (moduleName : string) :
  (∀ c, c ∈ candidates moduleName → unused (process cs empty_registry) c) →
  ∃ message,
    require (S fuel) moduleName (process cs empty_registry)
    = (Throws (VError (Error message)), process cs empty_registry) ∧
    message = not_found_message moduleName (candidates moduleName)
                                (registered (process cs empty_registry)) ∧
    Str.startsWith message "Module not found: " = true ∧
    Str.occurs_in moduleName message ∧
    (∀ c, c ∈ candidates moduleName → Str.occurs_in c message) ∧
    (∀ k, is_Some (moduleFactories (process cs empty_registry) !! k) →
          Str.occurs_in k message).
Proof.
  intros Hnone. apply scan_no_match in Hnone.
  destruct (not_found_message_complete moduleName (candidates moduleName)
              (registered (process cs empty_registry)))
    as (Hstart & Hname & Hcands & Hkeys).
  eexists. split; [|split; [reflexivity|]].
  - rewrite require_S.
    unfold require_body. by rewrite Hnone.
  - split; [done|]. split; [done|]. split; [done|].
    intros k Hk. apply Hkeys, object_keys_elem.
    by apply (process_keyed cs empty_registry keyed_empty).
Qed.

Lemma require_not_found_diagnostics_witness :
  ∃ message,
    require 1 "missing"
      (process [Define (requiring "B" "b") (Some "A") "";
                Define (requiring "A" "a") (Some "B") ""] empty_registry)
    = (Throws (VError (Error message)),
       process [Define (requiring "B" "b") (Some "A") "";
                Define (requiring "A" "a") (Some "B") ""] empty_registry) ∧
    message = not_found_message "missing" (candidates "missing")
                (registered (process [Define (requiring "B" "b") (Some "A") "";
                                      Define (requiring "A" "a") (Some "B") ""]
                                     empty_registry)) ∧
    Str.startsWith message "Module not found: " = true ∧
    Str.occurs_in "missing" message ∧
    (∀ c, c ∈ candidates "missing" → Str.occurs_in c message) ∧
    (∀ k, is_Some (moduleFactories
                     (process [Define (requiring "B" "b") (Some "A") "";
                               Define (requiring "A" "a") (Some "B") ""]
                              empty_registry) !! k) →
          Str.occurs_in k message).
Proof.
  apply (require_not_found_diagnostics
           [Define (requiring "B" "b") (Some "A") "";
            Define (requiring "A" "a") (Some "B") ""] 0 "missing").
  apply scan_no_match. vm_compute. reflexivity.
Defined.

(** ** Names that [Object.prototype] has *)

(** X17. A unit whose name (explicit, or detected from its frame) is a
    member of [Object.prototype], such as [toString] or [constructor],
    cannot be registered: [__defineModule__] takes the inherited member
    for an earlier registration, writes the duplicate warning and stores
    nothing. As long as no module record exists under the name, [require]
    of that name returns [undefined], and neither loads a unit nor reports
    that there is none. *)
Theorem inherited_name_is_never_registered (f : factory) (explicitName : option string)
    (stack name : string) (member : value) (st : registry) :
  resolved_name explicitName stack = Some name →
  inherited name = Some member →
  ∃ st',
    __defineModule__ f explicitName stack st = (Returns VUndef, st') ∧
    silent st' = silent st ∧
    last (console st') = Some (duplicate_warning name) ∧
    (modules st !! name = None →
     ∀ fuel, require (S fuel) name st' = (Returns VUndef, st')).
Proof.
  intros Hname Hi.
  assert (Hreg : ∀ st0, silent st0 = silent st →
            ∃ st', register f name st0 = (Returns VUndef, st') ∧
                   silent st' = silent st ∧
                   last (console st') = Some (duplicate_warning name)).
  { intros st0 Hs0. unfold register. rewrite Hi.
    exists (warn (duplicate_warning name) st0).
    split; [by destruct (moduleFactories st0 !! name)|].
    split; [by rewrite <- Hs0|]. simpl. by rewrite last_snoc. }
  assert (Hdef : ∃ st', __defineModule__ f explicitName stack st = (Returns VUndef, st') ∧
                        silent st' = silent st ∧
                        last (console st') = Some (duplicate_warning name)).
  { unfold __defineModule__, resolved_name in *.
    destruct explicitName as [[|a s]|].
    - unfold __detectModuleName__. rewrite Hname. by apply Hreg.
    - injection Hname as <-. by apply Hreg.
    - unfold __detectModuleName__. rewrite Hname. by apply Hreg. }
  destruct Hdef as (st' & Hdef & Hs & Hw). exists st'.
  split; [done|]. split; [done|]. split; [done|].
  intros Hm fuel. pose proof (silent_inv _ _ Hs) as (_ & Hms & _).
  rewrite require_S. unfold require_body. destruct (candidates_head name) as [rest ->].
  cbn [scan]. by rewrite Hms, Hm, Hi.
Qed.

Lemma inherited_name_is_never_registered_witness :
  ∃ st',
    __defineModule__ calculator None "Error
    at __detectModuleName__ (CommonJS:53:13)
    at __defineModule__ (CommonJS:216:39)
    at toString:26:1" initial_registry = (Returns VUndef, st') ∧
    silent st' = silent initial_registry ∧
    last (console st') = Some (duplicate_warning "toString") ∧
    (modules initial_registry !! "toString" = None →
     ∀ fuel, require (S fuel) "toString" st' = (Returns VUndef, st')).
Proof.
  apply (inherited_name_is_never_registered calculator None _ "toString"
           (VFun "Object.prototype.toString")).
  - vm_compute. reflexivity.
  - vm_compute. reflexivity.
Defined.

(** * The stack walkers on a frame [at path:line:column] *)

Lemma m_star (r1 : Regex.re) (i : nat) (s : list ascii) (c : Regex.caps) k :
  Regex.m (Regex.Star r1) i s c k = star_loop r1 k (length s) i s c.
Proof. reflexivity. Qed.

Lemma m_cat (r1 r2 : Regex.re) (i : nat) (s : list ascii) (c : Regex.caps) k :
  Regex.m (Regex.Cat r1 r2) i s c k = Regex.m r1 i s c (λ i' s' c', Regex.m r2 i' s' c' k).
Proof. reflexivity. Qed.

Lemma m_class (p : ascii → bool) (i : nat) (a : ascii) (s : list ascii) (c : Regex.caps) k :
  Regex.m (Regex.Class p) i (a :: s) c k = if p a then k (S i) s c else None.
Proof. reflexivity. Qed.

Lemma m_group (j : nat) (r1 : Regex.re) (i : nat) (s : list ascii) (c : Regex.caps) k :
  Regex.m (Regex.Group j r1) i s c k = Regex.m r1 i s c (λ i' s' c', k i' s' ((j, take (i' - i) s) :: c')).
Proof. reflexivity. Qed.

Lemma m_opt (r1 : Regex.re) (i : nat) (s : list ascii) (c : Regex.caps) k :
  Regex.m (Regex.Opt r1) i s c k = match Regex.m r1 i s c k with Some x => Some x | None => k i s c end.
Proof. reflexivity. Qed.

Lemma star_class_greedy (p : ascii → bool) k (s rest : list ascii) :
  ∀ n i c x,
    forallb p s = true → stops p rest = true → length s ≤ n →
    k (i + length s) rest c = Some x →
    star_loop (Regex.Class p) k n i (s ++ rest) c = Some x.
Proof.
  induction s as [|a s IH]; intros n i c x Hs Hrest Hn Hk.
  - rewrite Nat.add_0_r in Hk. destruct n as [|n]; [done|]. cbn [star_loop Regex.m app].
    destruct rest as [|b rest]; [by rewrite Hk|].
    cbn in Hrest. apply negb_true_iff in Hrest. by rewrite Hrest, Hk.
  - cbn [forallb] in Hs. apply andb_true_iff in Hs as [Ha Hs].
    destruct n as [|n]; [cbn in Hn; lia|]. cbn [star_loop Regex.m app]. rewrite Ha.
    replace (i <? S i) with true by (symmetry; apply Nat.ltb_lt; lia).
    rewrite (IH n (S i) c x); [done..| |]; cbn in *; [lia|].
    by replace (S (i + length s)) with (i + S (length s)) by lia.
Qed.

Lemma plus_class_greedy (p : ascii → bool) k (a : ascii) (s rest : list ascii) i c x :
  forallb p (a :: s) = true → stops p rest = true →
  k (i + length (a :: s)) rest c = Some x →
  Regex.m (Regex.Plus (Regex.Class p)) i ((a :: s) ++ rest) c k = Some x.
Proof.
  intros Hs Hrest Hk. cbn [forallb] in Hs. apply andb_true_iff in Hs as [Ha Hs].
  unfold Regex.Plus. cbn [app]. rewrite m_cat, m_class, Ha, m_star.
  apply star_class_greedy; [done..|rewrite length_app; lia|].
  cbn in Hk. by replace (S i + length s) with (i + S (length s)) by lia.
Qed.

Lemma star_class_none (p : ascii → bool) (ch : ascii) k (s rest : list ascii) :
  fails_unless ch k →
  forallb (λ a, negb (Ascii.eqb ch a)) s = true →
  match rest with a :: _ => negb (p a) && negb (Ascii.eqb ch a) | [] => true end = true →
  ∀ n i c, star_loop (Regex.Class p) k n i (s ++ rest) c = None.
Proof.
  intros Hk Hs Hrest. induction s as [|a s IH]; intros n i c.
  - cbn [app]. assert (Hk0 : k i rest c = None).
    { apply Hk. destruct rest as [|b rest]; [done|].
      apply andb_true_iff in Hrest as [_ Hb]. by apply negb_true_iff in Hb. }
    destruct n as [|n]; [done|]. cbn [star_loop].
    destruct rest as [|b rest]; [done|]. rewrite m_class.
    apply andb_true_iff in Hrest as [Hb _]. apply negb_true_iff in Hb. by rewrite Hb.
  - cbn [forallb] in Hs. apply andb_true_iff in Hs as [Ha Hs].
    apply negb_true_iff in Ha. cbn [app].
    assert (Hk0 : k i (a :: s ++ rest) c = None) by by apply Hk.
    destruct n as [|n]; [done|]. cbn [star_loop]. rewrite m_class.
    destruct (p a); [|done].
    replace (i <? S i) with true by (symmetry; apply Nat.ltb_lt; lia).
    by rewrite IH.
Qed.

Lemma plus_class_none (p : ascii → bool) (ch : ascii) k (s rest : list ascii) i c :
  fails_unless ch k →
  forallb (λ a, negb (Ascii.eqb ch a)) s = true →
  match rest with a :: _ => negb (p a) && negb (Ascii.eqb ch a) | [] => true end = true →
  Regex.m (Regex.Plus (Regex.Class p)) i (s ++ rest) c k = None.
Proof.
  intros Hk Hs Hrest. unfold Regex.Plus. rewrite m_cat.
  destruct s as [|a s].
  - cbn [app]. destruct rest as [|b rest]; [done|]. rewrite m_class.
    apply andb_true_iff in Hrest as [Hb _]. apply negb_true_iff in Hb. by rewrite Hb.
  - cbn [app]. rewrite m_class. destruct (p a); [|done]. rewrite m_star.
    cbn [forallb] in Hs. apply andb_true_iff in Hs as [_ Hs].
    by apply (star_class_none p ch).
Qed.

Lemma seg_is_class : Patterns.seg = Regex.Class seg_char.
Proof. reflexivity. Qed.

Lemma seg_char_not_slash (a : ascii) : seg_char a = true → Ascii.eqb Patterns.slash a = false.
Proof.
  unfold seg_char. cbn [existsb]. intros H. apply andb_true_iff in H as [H _].
  apply negb_true_iff, orb_false_iff in H as [H _]. by rewrite Ascii.eqb_sym.
Qed.

Lemma seg_char_not_space (a : ascii) : seg_char a = true → Str.is_space a = false.
Proof.
  unfold seg_char. intros H. apply andb_true_iff in H as [_ H].
  by apply negb_true_iff in H.
Qed.

Lemma stops_tail (ss : list (list ascii)) (rest : list ascii) :
  match rest with a :: _ => negb (seg_char a) && negb (Ascii.eqb Patterns.slash a) | [] => true end = true →
  stops seg_char (tail_chars ss ++ rest) = true.
Proof.
  intros Hrest. destruct ss as [|s ss]; [|done]. cbn.
  destruct rest as [|a rest]; [done|]. by apply andb_true_iff in Hrest as [? _].
Qed.

Lemma star_segs_greedy k (rest : list ascii) (ss : list (list ascii)) :
  match rest with a :: _ => negb (seg_char a) && negb (Ascii.eqb Patterns.slash a) | [] => true end = true →
  forallb good_seg ss = true →
  ∀ n i c x,
    length (tail_chars ss) ≤ n →
    k (i + length (tail_chars ss)) rest c = Some x →
    star_loop (Regex.Cat (Regex.Chr Patterns.slash) (Regex.Plus Patterns.seg)) k n i (tail_chars ss ++ rest) c
    = Some x.
Proof.
  intros Hrest. induction ss as [|s ss IH]; intros Hss n i c x Hn Hk.
  - cbn [tail_chars map concat app length] in *. rewrite Nat.add_0_r in Hk.
    destruct n as [|n]; [done|]. cbn [star_loop]. rewrite m_cat. unfold Regex.Chr.
    destruct rest as [|a rest]; [by rewrite Hk|]. rewrite m_class.
    apply andb_true_iff in Hrest as [_ Ha]. apply negb_true_iff in Ha. by rewrite Ha, Hk.
  - cbn [forallb] in Hss. apply andb_true_iff in Hss as [Hs Hss].
    change (tail_chars (s :: ss)) with (Patterns.slash :: s ++ tail_chars ss) in *.
    destruct n as [|n]; [cbn in Hn; lia|]. cbn [star_loop]. rewrite m_cat. unfold Regex.Chr.
    rewrite <- app_comm_cons, m_class, Ascii.eqb_refl, <- app_assoc, seg_is_class.
    destruct s as [|a s]; [done|]. cbn [good_seg] in Hs.
    match goal with |- match ?e with _ => _ end = _ => assert (He : e = Some x) end;
      [|by rewrite He].
    apply plus_class_greedy; [done|by apply stops_tail|].
    replace (i <? S i + length (a :: s)) with true
      by (symmetry; apply Nat.ltb_lt; cbn; lia).
    apply IH; [done| |].
    + cbn in Hn. rewrite length_app in Hn. cbn. lia.
    + rewrite <- Hk. f_equal. cbn. rewrite length_app. lia.
Qed.

Lemma m_line_col k (d1 d2 rest0 : list ascii) i c x :
  good_digits d1 = true → good_digits d2 = true → stops Str.is_digit rest0 = true →
  k (i + (2 + length d1 + length d2)) rest0 c = Some x →
  Regex.m Patterns.line_col i (Patterns.colon :: d1 ++ Patterns.colon :: d2 ++ rest0) c k = Some x.
Proof.
  intros H1 H2 Hrest Hk. unfold Patterns.line_col. cbn [Patterns.seq].
  rewrite m_cat. unfold Regex.Chr at 1. rewrite m_class, Ascii.eqb_refl, m_cat.
  destruct d1 as [|a1 d1]; [done|]. destruct d2 as [|a2 d2]; [done|].
  cbn [good_digits] in H1, H2. unfold Regex.Digit.
  apply plus_class_greedy; [done..|].
  rewrite m_cat. unfold Regex.Chr. rewrite m_class, Ascii.eqb_refl.
  apply plus_class_greedy; [done..|].
  rewrite <- Hk. f_equal. cbn. lia.
Qed.

Lemma colon_stops :
  negb (seg_char Patterns.colon) && negb (Ascii.eqb Patterns.slash Patterns.colon) = true.
Proof. reflexivity. Qed.

Lemma m_file_part (s : list ascii) (ss : list (list ascii)) (d1 d2 rest0 : list ascii) i c :
  good_seg s = true → forallb good_seg ss = true →
  good_digits d1 = true → good_digits d2 = true → stops Str.is_digit rest0 = true →
  ∃ e, Regex.m file_part i
         (s ++ tail_chars ss ++ Patterns.colon :: d1 ++ Patterns.colon :: d2 ++ rest0) c k0
       = Some (e, (2, s ++ tail_chars ss) :: c).
Proof.
  intros Hs Hss H1 H2 Hrest. eexists. unfold file_part.
  rewrite m_cat, m_group, m_cat, seg_is_class.
  destruct s as [|a s]; [done|]. cbn [good_seg] in Hs.
  apply plus_class_greedy; [done|apply stops_tail, colon_stops|].
  rewrite m_star. apply star_segs_greedy; [apply colon_stops|done|rewrite length_app; lia|].
  apply m_line_col; [done..|].
  replace (i + length (a :: s) + length (tail_chars ss) - i)
    with (length ((a :: s) ++ tail_chars ss)) by (rewrite length_app; lia).
  rewrite (app_assoc (a :: s)), take_app_length. reflexivity.
Qed.

Lemma m_at k (rest : list ascii) i c x :
  stops Str.is_space rest = true →
  k (i + 3) rest c = Some x →
  Regex.m Patterns.at_ i (at_chars ++ rest) c k = Some x.
Proof.
  intros Hrest Hk. unfold Patterns.at_, at_chars. cbn [Patterns.seq Str.chars
    String.list_ascii_of_string Regex.Lit app].
  rewrite !m_cat. unfold Regex.Chr. rewrite m_class, Ascii.eqb_refl, m_cat, m_class, Ascii.eqb_refl.
  cbn [Regex.m]. unfold Regex.Space.
  apply (plus_class_greedy Str.is_space k " "%char [] rest); [done..|].
  rewrite <- Hk. f_equal. cbn. lia.
Qed.

Lemma virtual_path_unfold :
  Patterns.virtual_path = Regex.Cat Patterns.at_ (Regex.Cat (Regex.Opt dir_part) file_part).
Proof. reflexivity. Qed.

Lemma seg_chars_no_slash (s : list ascii) :
  forallb seg_char s = true →
  forallb (λ a, negb (Ascii.eqb Patterns.slash a)) s = true.
Proof.
  induction s as [|a s IH]; [done|]. cbn [forallb]. intros H.
  apply andb_true_iff in H as [Ha Hs]. by rewrite (seg_char_not_slash a Ha), IH.
Qed.

Lemma m_dir_part_none k (s rest : list ascii) i c :
  forallb seg_char s = true →
  Regex.m dir_part i (s ++ Patterns.colon :: rest) c k = None.
Proof.
  intros Hs. unfold dir_part. rewrite m_group, m_cat, seg_is_class.
  apply (plus_class_none seg_char Patterns.slash).
  - intros i' s' c' Hhead. unfold Regex.Chr. destruct s' as [|a s']; [done|].
    by rewrite m_class, Hhead.
  - by apply seg_chars_no_slash.
  - apply colon_stops.
Qed.

Lemma m_dir_part k (s rest : list ascii) i c x :
  good_seg s = true →
  k (i + S (length s)) rest ((1, s ++ [Patterns.slash]) :: c) = Some x →
  Regex.m dir_part i (s ++ Patterns.slash :: rest) c k = Some x.
Proof.
  intros Hs Hk. unfold dir_part. rewrite m_group, m_cat, seg_is_class.
  destruct s as [|a s]; [done|]. cbn [good_seg] in Hs.
  apply plus_class_greedy; [done..|].
  unfold Regex.Chr. rewrite m_class, Ascii.eqb_refl.
  replace (S (i + length (a :: s)) - i) with (length ((a :: s) ++ [Patterns.slash]))
    by (rewrite length_app; cbn; lia).
  replace ((a :: s) ++ Patterns.slash :: rest) with (((a :: s) ++ [Patterns.slash]) ++ rest)
    by by rewrite <- app_assoc.
  rewrite take_app_length. rewrite <- Hk. f_equal. lia.
Qed.

Lemma seg_head_not_space (s rest : list ascii) :
  good_seg s = true → stops Str.is_space (s ++ rest) = true.
Proof.
  destruct s as [|a s]; [done|]. cbn [good_seg forallb]. intros Hs.
  apply andb_true_iff in Hs as [Ha _]. cbn. by rewrite (seg_char_not_space a Ha).
Qed.

Lemma m_virtual_path (segs : list (list ascii)) (d1 d2 : list ascii) (i : nat) :
  segs ≠ [] → forallb good_seg segs = true →
  good_digits d1 = true → good_digits d2 = true →
  ∃ e, Regex.m Patterns.virtual_path i
    (at_chars ++ path_chars segs ++ Patterns.colon :: d1 ++ Patterns.colon :: d2) [] k0
    = Some (e, frame_caps segs).
Proof.
  intros Hne Hsegs H1 H2. destruct segs as [|s1 segs]; [done|].
  cbn [forallb] in Hsegs. apply andb_true_iff in Hsegs as [Hs1 Hsegs].
  rewrite virtual_path_unfold, m_cat.
  destruct segs as [|s2 ss].
  - destruct (m_file_part s1 [] d1 d2 [] (i + 3) [] Hs1 eq_refl H1 H2 eq_refl) as [e He].
    exists e. apply m_at.
    { destruct s1 as [|a s1]; [done|]. cbn [good_seg forallb] in Hs1.
      apply andb_true_iff in Hs1 as [Ha _]. cbn. by rewrite (seg_char_not_space a Ha). }
    rewrite m_cat, m_opt. cbn [path_chars tail_chars map concat].
    rewrite app_nil_r in *. rewrite m_dir_part_none.
    + cbn [tail_chars map concat app] in He. rewrite ?app_nil_r in He. exact He.
    + destruct s1; [done|]. done.
  - cbn [forallb] in Hsegs. apply andb_true_iff in Hsegs as [Hs2 Hss].
    destruct (m_file_part s2 ss d1 d2 [] (i + 3 + S (length s1)) [(1, s1 ++ [Patterns.slash])]
                Hs2 Hss H1 H2 eq_refl) as [e He].
    exists e. apply m_at.
    { destruct s1 as [|a s1]; [done|]. cbn [good_seg forallb] in Hs1.
      apply andb_true_iff in Hs1 as [Ha _]. cbn. by rewrite (seg_char_not_space a Ha). }
    rewrite m_cat, m_opt.
    change (path_chars (s1 :: s2 :: ss)) with (s1 ++ Patterns.slash :: s2 ++ tail_chars ss).
    rewrite <- !app_assoc. cbn [app].
    erewrite m_dir_part; [reflexivity|done|].
    rewrite app_nil_r in He. rewrite <- app_assoc. exact He.
Qed.

Lemma space_not_a (x : ascii) : Str.is_space x = true → Ascii.eqb "a" x = false.
Proof.
  intros Hx. destruct (Ascii.eqb "a" x) eqn:E; [|done].
  apply Ascii.eqb_eq in E. by subst x.
Qed.

Lemma m_at_head (r' : Regex.re) (x : ascii) (t : list ascii) i c k :
  Ascii.eqb "a" x = false → Regex.m (Regex.Cat Patterns.at_ r') i (x :: t) c k = None.
Proof.
  intros Hx. unfold Patterns.at_. cbn [Patterns.seq Str.chars String.list_ascii_of_string Regex.Lit].
  rewrite !m_cat. unfold Regex.Chr. by rewrite m_class, Hx.
Qed.

Lemma search_indent (r' : Regex.re) (indent t : list ascii) (i : nat) :
  forallb Str.is_space indent = true →
  Regex.search_from (Regex.Cat Patterns.at_ r') i (indent ++ t)
  = Regex.search_from (Regex.Cat Patterns.at_ r') (i + length indent) t.
Proof.
  revert i. induction indent as [|x indent IH]; intros i Hind.
  - by rewrite Nat.add_0_r.
  - cbn [forallb] in Hind. apply andb_true_iff in Hind as [Hx Hind].
    cbn [app Regex.search_from]. rewrite m_at_head by by apply space_not_a.
    rewrite IH by done. cbn [length]. f_equal. lia.
Qed.

Lemma exec_virtual_path (indent : list ascii) (segs : list (list ascii)) (d1 d2 : list ascii) :
  forallb Str.is_space indent = true →
  segs ≠ [] → forallb good_seg segs = true →
  good_digits d1 = true → good_digits d2 = true →
  Regex.exec Patterns.virtual_path
    (Str.of_chars (indent ++ at_chars ++ path_chars segs
                   ++ Patterns.colon :: d1 ++ Patterns.colon :: d2))
  = Some (frame_caps segs).
Proof.
  intros Hind Hne Hsegs H1 H2.
  destruct (m_virtual_path segs d1 d2 (0 + length indent) Hne Hsegs H1 H2) as [e Hm].
  unfold Regex.exec, Str.chars, Str.of_chars.
  rewrite String.list_ascii_of_string_of_list_ascii.
  rewrite virtual_path_unfold, search_indent by done. rewrite <- virtual_path_unfold.
  change at_chars with ("a"%char :: Str.chars "t ") in *.
  cbn [app Regex.search_from]. unfold k0 in Hm. cbn [app] in Hm. by rewrite Hm.
Qed.

Lemma search_trailing_slash (s : list ascii) (i : nat) :
  forallb (λ a, negb (Ascii.eqb Patterns.slash a)) s = true →
  Regex.search_from Patterns.trailing_slash i (s ++ [Patterns.slash])
  = Some (i + length s, S (i + length s), []).
Proof.
  revert i. induction s as [|a s IH]; intros i Hs.
  - cbn [app Regex.search_from]. unfold Patterns.trailing_slash. cbn [Patterns.seq].
    rewrite m_cat. unfold Regex.Chr. rewrite m_class, Ascii.eqb_refl. cbn [Regex.m length].
    by rewrite Nat.add_0_r.
  - cbn [forallb] in Hs. apply andb_true_iff in Hs as [Ha Hs]. apply negb_true_iff in Ha.
    cbn [app Regex.search_from]. unfold Patterns.trailing_slash at 1. cbn [Patterns.seq].
    rewrite m_cat. unfold Regex.Chr. rewrite m_class, Ha, IH by done.
    cbn [length]. by replace (S i + length s) with (i + S (length s)) by lia.
Qed.

Lemma of_chars_app (a b : list ascii) : Str.of_chars (a ++ b) = Str.of_chars a +:+ Str.of_chars b.
Proof.
  induction a as [|x a IH]; [done|]. unfold Str.of_chars in *.
  cbn [app String.string_of_list_ascii]. by rewrite IH.
Qed.

Lemma remove_trailing_slash (s : list ascii) :
  forallb (λ a, negb (Ascii.eqb Patterns.slash a)) s = true →
  Regex.remove Patterns.trailing_slash (Str.of_chars (s ++ [Patterns.slash])) = Str.of_chars s.
Proof.
  intros Hs. unfold Regex.remove, Str.chars, Str.of_chars.
  rewrite !String.list_ascii_of_string_of_list_ascii, search_trailing_slash by done.
  cbn [Nat.add]. rewrite take_app_length.
  replace (S (length s)) with (length (s ++ [Patterns.slash])) by (rewrite length_app; cbn; lia).
  by rewrite drop_all, app_nil_r.
Qed.

Lemma of_chars_nonempty (a : ascii) (s : list ascii) : String.eqb (Str.of_chars (a :: s)) "" = false.
Proof. reflexivity. Qed.

Lemma virtual_path_name_frame (segs : list (list ascii)) :
  segs ≠ [] → forallb good_seg segs = true →
  virtual_path_name (frame_caps segs) = Str.of_chars (path_chars segs).
Proof.
  intros Hne Hsegs. destruct segs as [|s1 [|s2 ss]]; [done| |].
  - cbn [frame_caps path_chars tail_chars map concat]. by rewrite app_nil_r.
  - cbn [forallb] in Hsegs. apply andb_true_iff in Hsegs as [Hs1 _].
    destruct s1 as [|a s1]; [done|]. cbn [good_seg] in Hs1.
    unfold virtual_path_name, Regex.group. cbn [frame_caps Regex.cap Nat.eqb fmap option_fmap option_map default].
    change (((a :: s1) ++ [Patterns.slash])) with (a :: (s1 ++ [Patterns.slash])).
    rewrite of_chars_nonempty.
    change (a :: (s1 ++ [Patterns.slash])) with ((a :: s1) ++ [Patterns.slash]).
    rewrite remove_trailing_slash by by apply seg_chars_no_slash.
    rewrite of_chars_nonempty. cbn [path_chars]. unfold id.
    change (tail_chars (s2 :: ss)) with (Patterns.slash :: (s2 ++ tail_chars ss)).
    by rewrite (of_chars_app (a :: s1)).
Qed.

Lemma chars_join (s : string) (ss : list string) :
  Str.chars (Str.join "/" (s :: ss)) = path_chars (map Str.chars (s :: ss)).
Proof.
  unfold Str.join. revert s. induction ss as [|s2 ss IH]; intros s.
  - cbn. by rewrite app_nil_r.
  - change (String.concat "/" (s :: s2 :: ss)) with (s +:+ "/" +:+ String.concat "/" (s2 :: ss)).
    rewrite !chars_app, IH. done.
Qed.

Lemma frame_chars (segs : list string) (l c : string) :
  segs ≠ [] →
  Str.chars (frame (Str.join "/" segs) l c)
  = at_chars ++ path_chars (map Str.chars segs)
    ++ Patterns.colon :: Str.chars l ++ Patterns.colon :: Str.chars c.
Proof.
  intros Hne. destruct segs as [|s ss]; [done|]. unfold frame.
  rewrite !chars_app, chars_join. done.
Qed.

Lemma forallb_segment (segs : list string) :
  forallb good_seg (map Str.chars segs) = forallb segment segs.
Proof. induction segs as [|s segs IH]; [done|]. cbn [map forallb]. by rewrite IH. Qed.

Lemma try_virtual_path_frame (indent : string) (segs : list string) (l c : string) :
  spaces indent = true →
  segs ≠ [] → forallb segment segs = true → digits l = true → digits c = true →
  try_virtual_path (indent +:+ frame (Str.join "/" segs) l c)
  = if usable (Str.join "/" segs) then Some (Str.join "/" segs) else None.
Proof.
  intros Hind Hne Hsegs Hl Hc. unfold try_virtual_path.
  rewrite <- (chars_of_chars (indent +:+ frame (Str.join "/" segs) l c)).
  rewrite chars_app, frame_chars by done.
  assert (Hne' : map Str.chars segs ≠ []) by by destruct segs.
  rewrite exec_virtual_path; [|done|done|by rewrite forallb_segment|done..].
  rewrite virtual_path_name_frame; [|done|by rewrite forallb_segment].
  destruct segs as [|s ss]; [done|]. by rewrite <- chars_join, chars_of_chars.
Qed.

Lemma digit_not_space (a : ascii) : Str.is_digit a = true → Str.is_space a = false.
Proof.
  unfold Str.is_digit, Str.is_space. generalize (nat_of_ascii a) as n. intros n H.
  apply andb_true_iff in H as [H1 H2]. apply Nat.leb_le in H1, H2.
  apply orb_false_iff. split; [apply Nat.eqb_neq; lia|].
  apply andb_false_iff. right. apply Nat.leb_gt. lia.
Qed.

Lemma drop_spaces_indent (indent body : list ascii) :
  forallb Str.is_space indent = true → stops Str.is_space body = true →
  Str.drop_spaces (indent ++ body) = body.
Proof.
  intros Hind Hbody. induction indent as [|x indent IH].
  - destruct body as [|a body]; [done|]. cbn in *.
    apply negb_true_iff in Hbody. by rewrite Hbody.
  - cbn [forallb] in Hind. apply andb_true_iff in Hind as [Hx Hind].
    cbn [app Str.drop_spaces]. rewrite Hx. by apply IH.
Qed.

Lemma trim_body (indent body : list ascii) :
  forallb Str.is_space indent = true →
  stops Str.is_space body = true → stops Str.is_space (rev body) = true →
  Str.trim (Str.of_chars (indent ++ body)) = Str.of_chars body.
Proof.
  intros Hind Hhead Hlast. unfold Str.trim, Str.chars. unfold Str.of_chars at 2.
  rewrite String.list_ascii_of_string_of_list_ascii, drop_spaces_indent by done.
  pose proof (drop_spaces_indent [] (rev body) eq_refl Hlast) as Hrev.
  cbn [app] in Hrev. by rewrite Hrev, rev_involutive.
Qed.

Lemma digits_rev_stops (d x : list ascii) :
  good_digits d = true → stops Str.is_space (rev d ++ x) = true.
Proof.
  intros Hd. destruct (rev d) as [|y t] eqn:Hrev.
  { apply (f_equal (@rev ascii)) in Hrev. rewrite rev_involutive in Hrev.
    by subst d. }
  cbn. apply negb_true_iff, digit_not_space.
  assert (Hin : In y d) by (apply in_rev; rewrite Hrev; by left).
  destruct d as [|a d]; [done|]. cbn [good_digits] in Hd.
  by apply (proj1 (forallb_forall _ _) Hd).
Qed.

Lemma trim_frame (indent : string) (segs : list string) (l c : string) :
  spaces indent = true → segs ≠ [] → digits c = true →
  Str.trim (indent +:+ frame (Str.join "/" segs) l c) = frame (Str.join "/" segs) l c.
Proof.
  intros Hind Hne Hc.
  rewrite <- (chars_of_chars (indent +:+ frame (Str.join "/" segs) l c)), chars_app.
  rewrite trim_body; [apply chars_of_chars|done| |].
  - by rewrite frame_chars.
  - rewrite frame_chars by done.
    replace (at_chars ++ path_chars (map Str.chars segs)
             ++ Patterns.colon :: Str.chars l ++ Patterns.colon :: Str.chars c)
      with ((at_chars ++ path_chars (map Str.chars segs) ++ Patterns.colon :: Str.chars l)
            ++ Patterns.colon :: Str.chars c)
      by (by rewrite <- !app_assoc).
    rewrite rev_app_distr. cbn [rev]. rewrite <- !app_assoc.
    by apply digits_rev_stops.
Qed.

Lemma detect_lines_frame (pre post : list string) (indent : string)
    (segs : list string) (l c : string) :
  (∀ x, x ∈ pre →
        skipped (Str.trim x) = true ∨ first_of detect_patterns (Str.trim x) = None) →
  spaces indent = true →
  segs ≠ [] → forallb segment segs = true → digits l = true → digits c = true →
  skipped (frame (Str.join "/" segs) l c) = false →
  usable (Str.join "/" segs) = true →
  detect_lines (pre ++ (indent +:+ frame (Str.join "/" segs) l c) :: post)
  = Some (Str.join "/" segs).
Proof.
  intros Hpre Hind Hne Hsegs Hl Hc Hskip Huse.
  induction pre as [|x pre IH]; cbn [app detect_lines].
  - rewrite trim_frame, Hskip by done. unfold detect_patterns. cbn [first_of].
    rewrite <- (append_nil (frame (Str.join "/" segs) l c)).
    rewrite (try_virtual_path_frame "") by done. by rewrite Huse.
  - assert (Hrest : detect_lines (pre ++ (indent +:+ frame (Str.join "/" segs) l c) :: post)
                    = Some (Str.join "/" segs)).
    { apply IH. intros y Hy. apply Hpre. apply elem_of_cons; auto. }
    destruct (Hpre x) as [Hx|Hx]; [apply elem_of_cons; auto| |].
    + by rewrite Hx.
    + rewrite Hx. by destruct (skipped (Str.trim x)).
Qed.

Lemma full_path_unfold :
  Patterns.full_path
  = Regex.Cat Patterns.at_
      (Regex.Cat (Regex.Group 1 (Regex.Cat (Regex.Plus Patterns.seg)
                         (Regex.Plus (Regex.Cat (Regex.Chr Patterns.slash) (Regex.Plus Patterns.seg)))))
           Patterns.line_col).
Proof. reflexivity. Qed.

Lemma star_class_stop (p : ascii → bool) k (rest : list ascii) n i c :
  stops p rest = true → star_loop (Regex.Class p) k n i rest c = k i rest c.
Proof.
  intros Hrest. destruct n as [|n]; [done|]. cbn [star_loop].
  destruct rest as [|a rest]; [done|]. rewrite m_class.
  cbn in Hrest. apply negb_true_iff in Hrest. by rewrite Hrest.
Qed.

Lemma m_at_eq k (rest : list ascii) i c :
  stops Str.is_space rest = true →
  Regex.m Patterns.at_ i (at_chars ++ rest) c k = k (i + 3) rest c.
Proof.
  intros Hrest. unfold Patterns.at_, at_chars. cbn [Patterns.seq Str.chars
    String.list_ascii_of_string Regex.Lit app].
  rewrite !m_cat. unfold Regex.Chr. rewrite m_class, Ascii.eqb_refl, m_cat, m_class, Ascii.eqb_refl.
  cbn [Regex.m]. unfold Regex.Space, Regex.Plus. rewrite m_cat, m_class. cbn [Str.is_space].
  change (Str.is_space " ") with true. cbv iota. rewrite m_star, star_class_stop by done.
  f_equal. lia.
Qed.

Lemma m_full_path (s1 s2 : list ascii) (ss : list (list ascii)) (d1 d2 : list ascii) (i : nat) :
  good_seg s1 = true → good_seg s2 = true → forallb good_seg ss = true →
  good_digits d1 = true → good_digits d2 = true →
  ∃ e, Regex.m Patterns.full_path i
    (at_chars ++ path_chars (s1 :: s2 :: ss) ++ Patterns.colon :: d1 ++ Patterns.colon :: d2)
    [] k0
    = Some (e, [(1, path_chars (s1 :: s2 :: ss))]).
Proof.
  intros Hs1 Hs2 Hss H1 H2. rewrite <- (app_nil_r d2).
  eexists. rewrite full_path_unfold, m_cat.
  change (path_chars (s1 :: s2 :: ss)) with (s1 ++ Patterns.slash :: s2 ++ tail_chars ss).
  rewrite <- !app_assoc. cbn [app].
  rewrite m_at_eq by by apply seg_head_not_space.
  rewrite m_cat, m_group, m_cat, seg_is_class.
  destruct s1 as [|a1 s1]; [done|]. cbn [good_seg] in Hs1.
  apply plus_class_greedy; [done..|].
  unfold Regex.Plus at 1. rewrite !m_cat. unfold Regex.Chr. rewrite m_class, Ascii.eqb_refl.
  destruct s2 as [|a2 s2]; [done|]. cbn [good_seg] in Hs2.
  rewrite <- (app_assoc (a2 :: s2)).
  apply plus_class_greedy; [done|apply stops_tail, colon_stops|].
  rewrite m_star. apply star_segs_greedy; [apply colon_stops|done|rewrite length_app; lia|].
  apply m_line_col; [done..|]. unfold k0.
  match goal with |- Some (_, [(1, take ?n ?l)]) = _ =>
    replace n with (length ((a1 :: s1) ++ Patterns.slash :: (a2 :: s2) ++ tail_chars ss))
      by (rewrite !length_app; cbn [length]; rewrite !length_app; cbn [length]; lia)
  end.
  replace ((a1 :: s1) ++ Patterns.slash :: (a2 :: s2) ++ tail_chars ss
           ++ Patterns.colon :: d1 ++ Patterns.colon :: d2 ++ [])
    with (((a1 :: s1) ++ Patterns.slash :: (a2 :: s2) ++ tail_chars ss)
          ++ Patterns.colon :: d1 ++ Patterns.colon :: d2 ++ [])
    by (by rewrite <- !app_assoc; cbn [app]; rewrite <- !app_assoc).
  rewrite take_app_length. reflexivity.
Qed.

Lemma m_full_path_none (s rest : list ascii) (i : nat) c k :
  good_seg s = true →
  Regex.m Patterns.full_path i (at_chars ++ s ++ Patterns.colon :: rest) c k = None.
Proof.
  intros Hs. rewrite full_path_unfold, m_cat.
  rewrite m_at_eq by by apply seg_head_not_space.
  rewrite m_cat, m_group, m_cat, seg_is_class.
  apply (plus_class_none seg_char Patterns.slash).
  - intros i' s' c' Hhead. unfold Regex.Plus. rewrite !m_cat. unfold Regex.Chr.
    destruct s' as [|a s']; [done|]. by rewrite m_class, Hhead.
  - apply seg_chars_no_slash. by destruct s.
  - apply colon_stops.
Qed.

Lemma m_at_no_space (r' : Regex.re) (t : list ascii) i c k :
  forallb (λ a, negb (Str.is_space a)) t = true →
  Regex.m (Regex.Cat Patterns.at_ r') i t c k = None.
Proof.
  intros Ht. unfold Patterns.at_. cbn [Patterns.seq Str.chars String.list_ascii_of_string Regex.Lit].
  rewrite !m_cat. unfold Regex.Chr.
  destruct t as [|x t]; [done|]. rewrite m_class. destruct (Ascii.eqb "a" x); [|done].
  rewrite m_cat. destruct t as [|y t]; [done|]. rewrite m_class.
  destruct (Ascii.eqb "t" y); [|done]. cbn [Regex.m]. unfold Regex.Space, Regex.Plus. rewrite m_cat.
  destruct t as [|z t]; [done|]. rewrite m_class.
  cbn [forallb] in Ht. apply andb_true_iff in Ht as [_ Ht].
  apply andb_true_iff in Ht as [_ Ht]. apply andb_true_iff in Ht as [Hz _].
  apply negb_true_iff in Hz. by rewrite Hz.
Qed.

Lemma search_no_space (r' : Regex.re) (t : list ascii) (i : nat) :
  forallb (λ a, negb (Str.is_space a)) t = true →
  Regex.search_from (Regex.Cat Patterns.at_ r') i t = None.
Proof.
  revert i. induction t as [|x t IH]; intros i Ht.
  - cbn [Regex.search_from]. by rewrite m_at_no_space.
  - cbn [Regex.search_from]. rewrite m_at_no_space by done.
    cbn [forallb] in Ht. apply andb_true_iff in Ht as [_ Ht]. by apply IH.
Qed.

Lemma no_space_app (a b : list ascii) :
  forallb (λ a, negb (Str.is_space a)) a = true →
  forallb (λ a, negb (Str.is_space a)) b = true →
  forallb (λ a, negb (Str.is_space a)) (a ++ b) = true.
Proof. intros Ha Hb. by rewrite forallb_app, Ha, Hb. Qed.

Lemma seg_no_space (s : list ascii) :
  forallb seg_char s = true → forallb (λ a, negb (Str.is_space a)) s = true.
Proof.
  induction s as [|a s IH]; [done|]. cbn [forallb]. intros H.
  apply andb_true_iff in H as [Ha Hs]. by rewrite (seg_char_not_space a Ha), IH.
Qed.

Lemma digits_no_space (d : list ascii) :
  forallb Str.is_digit d = true → forallb (λ a, negb (Str.is_space a)) d = true.
Proof.
  induction d as [|a d IH]; [done|]. cbn [forallb]. intros H.
  apply andb_true_iff in H as [Ha Hd]. by rewrite (digit_not_space a Ha), IH.
Qed.

Lemma exec_full_path (indent : list ascii) (s1 s2 : list ascii) (ss : list (list ascii))
    (d1 d2 : list ascii) :
  forallb Str.is_space indent = true →
  good_seg s1 = true → good_seg s2 = true → forallb good_seg ss = true →
  good_digits d1 = true → good_digits d2 = true →
  Regex.exec Patterns.full_path
    (Str.of_chars (indent ++ at_chars ++ path_chars (s1 :: s2 :: ss)
                   ++ Patterns.colon :: d1 ++ Patterns.colon :: d2))
  = Some [(1, path_chars (s1 :: s2 :: ss))].
Proof.
  intros Hind Hs1 Hs2 Hss H1 H2.
  destruct (m_full_path s1 s2 ss d1 d2 (0 + length indent) Hs1 Hs2 Hss H1 H2) as [e Hm].
  unfold Regex.exec, Str.chars, Str.of_chars.
  rewrite String.list_ascii_of_string_of_list_ascii.
  rewrite full_path_unfold, search_indent by done. rewrite <- full_path_unfold.
  change at_chars with ("a"%char :: Str.chars "t ") in *.
  cbn [app Regex.search_from]. unfold k0 in Hm. cbn [app] in Hm. by rewrite Hm.
Qed.

Lemma exec_full_path_none (indent s d1 d2 : list ascii) :
  forallb Str.is_space indent = true →
  good_seg s = true → good_digits d1 = true → good_digits d2 = true →
  Regex.exec Patterns.full_path
    (Str.of_chars (indent ++ at_chars ++ s ++ Patterns.colon :: d1 ++ Patterns.colon :: d2))
  = None.
Proof.
  intros Hind Hs H1 H2.
  pose proof (m_full_path_none s (d1 ++ Patterns.colon :: d2) (0 + length indent) []
                (λ i' _ c', Some (i', c')) Hs) as Hm.
  unfold Regex.exec, Str.chars, Str.of_chars.
  rewrite String.list_ascii_of_string_of_list_ascii.
  rewrite full_path_unfold, search_indent by done. rewrite <- full_path_unfold.
  change at_chars with ("a"%char :: "t"%char :: " "%char :: []) in *.
  cbn [app] in *. cbn [Regex.search_from]. rewrite Hm.
  rewrite full_path_unfold, !m_at_head by done.
  rewrite search_no_space; [done|].
  apply no_space_app; [apply seg_no_space; by destruct s|].
  cbn [forallb]. apply andb_true_iff. split; [done|].
  apply no_space_app; [apply digits_no_space; by destruct d1|].
  cbn [forallb]. apply andb_true_iff. split; [done|].
  apply digits_no_space. by destruct d2.
Qed.

Lemma try_full_path_frame (indent : string) (segs : list string) (l c : string) :
  spaces indent = true →
  segs ≠ [] → forallb segment segs = true → digits l = true → digits c = true →
  usable (Str.join "/" segs) = true →
  try_group1 Patterns.full_path (indent +:+ frame (Str.join "/" segs) l c)
  = match segs with [_] => None | _ => Some (Str.join "/" segs) end.
Proof.
  intros Hind Hne Hsegs Hl Hc Huse. unfold try_group1.
  rewrite <- (chars_of_chars (indent +:+ frame (Str.join "/" segs) l c)).
  rewrite chars_app, frame_chars by done.
  rewrite <- forallb_segment in Hsegs.
  destruct segs as [|s1 [|s2 ss]]; [done| |].
  - cbn [map forallb] in Hsegs. apply andb_true_iff in Hsegs as [Hs1 _].
    cbn [map path_chars tail_chars concat]. rewrite app_nil_r.
    by rewrite exec_full_path_none.
  - cbn [map forallb] in Hsegs. apply andb_true_iff in Hsegs as [Hs1 Hsegs].
    apply andb_true_iff in Hsegs as [Hs2 Hss]. cbn [map].
    rewrite exec_full_path by done.
    unfold Regex.group. cbn [Regex.cap Nat.eqb fmap option_fmap option_map default].
    change (Str.chars s1 :: Str.chars s2 :: map Str.chars ss)
      with (map Str.chars (s1 :: s2 :: ss)).
    rewrite <- chars_join, chars_of_chars. unfold id. by rewrite Huse.
Qed.

Lemma current_lines_frame (pre post : list string) (indent : string)
    (segs : list string) (l c : string) :
  (∀ x, x ∈ pre → first_of current_patterns x = None) →
  spaces indent = true →
  segs ≠ [] → forallb segment segs = true → digits l = true → digits c = true →
  usable (Str.join "/" segs) = true →
  current_lines (pre ++ (indent +:+ frame (Str.join "/" segs) l c) :: post)
  = Some (Str.join "/" segs).
Proof.
  intros Hpre Hind Hne Hsegs Hl Hc Huse.
  induction pre as [|x pre IH]; cbn [app current_lines].
  - unfold current_patterns. cbn [first_of].
    rewrite try_full_path_frame, try_virtual_path_frame, Huse by done.
    by destruct segs as [|s1 [|s2 ss]].
  - rewrite (Hpre x) by (apply elem_of_cons; auto).
    apply IH. intros y Hy. apply Hpre. apply elem_of_cons; auto.
Qed.

(** X14. [__detectModuleName__] returns the path of the first frame
    [at path:line:column] of the stack, directories included, when the
    lines before it are skipped or yield no name; the frame may be
    indented, the path must be usable and free of the two skipped names. *)
Theorem detectModuleName_reads_frame (stack : string) (pre post : list string)
    (indent : string) (segs : list string) (l c : string) (st : registry) :
  stack_lines stack = pre ++ (indent +:+ frame (Str.join "/" segs) l c) :: post →
  Forall (λ x, skipped (Str.trim x) = true ∨
               first_of detect_patterns (Str.trim x) = None) pre →
  spaces indent = true →
  segs ≠ [] → forallb segment segs = true → digits l = true → digits c = true →
  skipped (frame (Str.join "/" segs) l c) = false →
  usable (Str.join "/" segs) = true →
  __detectModuleName__ stack st
  = (inl (Str.join "/" segs),
     log (LogDetected (Str.join "/" segs)) (log LogDetecting st)).
Proof.
  intros Hstack Hpre Hind Hne Hsegs Hl Hc Hskip Huse. unfold __detectModuleName__.
  rewrite Hstack, detect_lines_frame; [done| |done..].
  intros x Hx. by apply (proj1 (Forall_forall _ _) Hpre).
Qed.

Lemma detectModuleName_reads_frame_witness :
  __detectModuleName__ "Error
    at __detectModuleName__ (CommonJS:53:13)
    at __defineModule__ (CommonJS:216:39)
    at ai_tools/BaseConnector:12:1" initial_registry
  = (inl (Str.join "/" ["ai_tools"; "BaseConnector"]),
     log (LogDetected (Str.join "/" ["ai_tools"; "BaseConnector"]))
         (log LogDetecting initial_registry)).
Proof.
  apply (detectModuleName_reads_frame _
           ["Error"; "    at __detectModuleName__ (CommonJS:53:13)";
            "    at __defineModule__ (CommonJS:216:39)"] [] "    "
           ["ai_tools"; "BaseConnector"] "12" "1").
  - vm_compute. reflexivity.
  - constructor; [right; vm_compute; reflexivity|].
    constructor; [left; vm_compute; reflexivity|].
    constructor; [left; vm_compute; reflexivity|]. constructor.
  - vm_compute. reflexivity.
  - done.
  - vm_compute. reflexivity.
  - vm_compute. reflexivity.
  - vm_compute. reflexivity.
  - vm_compute. reflexivity.
  - vm_compute. reflexivity.
Defined.

(** X15. [__getCurrentModule__] returns the record stored under the path
    of the first frame [at path:line:column] of the stack, when the lines
    before it yield no name and the path is usable; it leaves the registry
    as it is. *)
Theorem getCurrentModule_reads_frame (stack : string) (pre post : list string)
    (indent : string) (segs : list string) (l c : string) (st : registry)
    (module : loc) :
  stack_lines stack = pre ++ (indent +:+ frame (Str.join "/" segs) l c) :: post →
  Forall (λ x, first_of current_patterns x = None) pre →
  spaces indent = true →
  segs ≠ [] → forallb segment segs = true → digits l = true → digits c = true →
  usable (Str.join "/" segs) = true →
  modules st !! Str.join "/" segs = Some module →
  __getCurrentModule__ stack st = (Returns (VRef module), st).
Proof.
  intros Hstack Hpre Hind Hne Hsegs Hl Hc Huse Hmod. unfold __getCurrentModule__.
  rewrite Hstack, current_lines_frame, Hmod; [done| |done..].
  intros x Hx. by apply (proj1 (Forall_forall _ _) Hpre).
Qed.

Lemma getCurrentModule_reads_frame_witness :
  __getCurrentModule__ "Error
    at calculator:26:1" calculator_loaded
  = (Returns (VRef 1), calculator_loaded).
Proof.
  apply (getCurrentModule_reads_frame _ ["Error"] [] "    " ["calculator"] "26" "1").
  - vm_compute. reflexivity.
  - constructor; [vm_compute; reflexivity|constructor].
  - vm_compute. reflexivity.
  - done.
  - vm_compute. reflexivity.
  - vm_compute. reflexivity.
  - vm_compute. reflexivity.
  - vm_compute. reflexivity.
  - vm_compute. reflexivity.
Defined.
